(** * Realtime synchronisation core of the todo application

    A shallow embedding of
    - [frontend/src/store/index.ts]   (the client cache, [useTodoStore]),
    - [frontend/src/utils/socket.ts]  (the client [SocketService]),
    - [backend/src/index.ts]          (the Socket.io relay of the server),
    - [backend/src/routes/todos.ts]   (the todo mutation routes),
    followed by the properties of the specification that concern them. *)

From Stdlib Require Import ZArith Lia Bool Ascii.
From stdpp Require Import base gmap sets list strings option pretty.

Local Open Scope string_scope.
Local Open Scope Z_scope.

(** ** JSON values and JavaScript objects *)

(** The payloads that travel over the socket and live in the cache are plain
    JSON data.  An object is a finite map from property names to values; a
    property that is absent reads as [undefined], which is [None] here. *)
#[local] Set Warnings "-register-all".
Inductive JsVal : Type :=
| JNull
| JBool (b : bool)
| JNum (n : Z)
| JStr (s : string)
| JArr (items : list JsVal)
| JObj (props : list (string * JsVal)).
#[local] Set Warnings "register-all".

Abbreviation JsObj := (gmap string JsVal).

(** [a === b] on values read from deserialised JSON: primitives compare by
    value, [undefined] equals only [undefined], and two arrays or objects are
    never the same reference. *)
Definition strict_eq (a b : option JsVal) : bool :=
  match a, b with
  | None, None => true
  | Some JNull, Some JNull => true
  | Some (JBool x), Some (JBool y) => Bool.eqb x y
  | Some (JNum x), Some (JNum y) => Z.eqb x y
  | Some (JStr x), Some (JStr y) => String.eqb x y
  | _, _ => false
  end.

(** [{ ...base, ...over }]: the properties of [over] win, those of [base]
    that [over] lacks are kept. *)
Definition spread (base over : JsObj) : JsObj := over ∪ base.

(** ** The client cache: [useTodoStore] of store/index.ts *)
Module Store.

Record TodoState : Type := mkTodoState {
  todos : list JsObj;
  categories : list JsObj;
  isLoading : bool;
  error : option string;
  filters : gmap string string
}.

(** [create<TodoState>(...)]: the initial state. *)
Definition initial : TodoState :=
  {| todos := []; categories := []; isLoading := false; error := None;
     filters := ∅ |}.

(** [set({ todos })] replaces one field and keeps the others. *)
Definition set_todos (l : list JsObj) (st : TodoState) : TodoState :=
  {| todos := l; categories := categories st; isLoading := isLoading st;
     error := error st; filters := filters st |}.

Definition setTodos (l : list JsObj) (st : TodoState) : TodoState :=
  set_todos l st.

(** [todos: [todo, ...state.todos]] *)
Definition addTodo (todo : JsObj) (st : TodoState) : TodoState :=
  set_todos (todo :: todos st) st.

(** [state.todos.map((todo) => todo.id === id ? { ...todo, ...updates } : todo)] *)
Definition updateTodo (id : option JsVal) (updates : JsObj) (st : TodoState)
  : TodoState :=
  set_todos
    (map (fun todo =>
            if strict_eq (todo !! "id") id then spread todo updates else todo)
         (todos st))
    st.

(** [state.todos.filter((todo) => todo.id !== id)] *)
Definition removeTodo (id : option JsVal) (st : TodoState) : TodoState :=
  set_todos
    (filter (fun todo => negb (strict_eq (todo !! "id") id) = true) (todos st))
    st.

(** The listeners that socket.ts registers for the pushed events. *)
Definition on_todo_created (todo : JsObj) (st : TodoState) : TodoState :=
  addTodo todo st.

Definition on_todo_updated (todo : JsObj) (st : TodoState) : TodoState :=
  updateTodo (todo !! "id") todo st.

Definition on_todo_deleted (todoId : string) (st : TodoState) : TodoState :=
  removeTodo (Some (JStr todoId)) st.

(** An entity with identifier [id] is already cached. *)
Definition cached (id : option JsVal) (st : TodoState) : bool :=
  existsb (fun todo => strict_eq (todo !! "id") id) (todos st).

End Store.

(** ** Messages of the realtime boundary *)

(** What a client sends ([socket.emit] in socket.ts), named after the event. *)
Inductive ClientMsg : Type :=
| join_user_room (userId : string)
| join_team_room (teamId : string)
| leave_team_room (teamId : string)
| todo_created (todo : JsObj)
| todo_updated (todo : JsObj)
| todo_deleted (todoId : string)
| comment_added (comment : JsObj).

(** ** The client connection manager: [SocketService] of socket.ts *)
Module SocketService.

(** The part of a socket.io-client [Socket] that the service reads. *)
Record Socket : Type := mkSocket {
  connected : bool;
  auth_token : string
}.

Record t : Type := mkService {
  socket : option Socket;
  reconnectAttempts : Z;
  maxReconnectAttempts : Z
}.

(** [new SocketService()]: the field initialisers of the class. *)
Definition initial : t :=
  {| socket := None; reconnectAttempts := 0; maxReconnectAttempts := 5 |}.

(** What a method does to the outside world. *)
Inductive Effect : Type :=
| Emit (msg : ClientMsg)          (* socket.emit(event, payload)        *)
| Open (token : string)           (* io(url, { auth: { token } })       *)
| Close                           (* socket.disconnect()                *)
| SetTimeout (delay : Z).         (* setTimeout(() => this.connect(), delay) *)

(** [this.socket?.connected], where [undefined] is falsy. *)
Definition socket_connected (s : t) : bool :=
  match socket s with
  | Some sock => connected sock
  | None => false
  end.

Definition isConnected (s : t) : bool := socket_connected s || false.

(** [connect()]; [token] is [useAuthStore.getState().token], and [!token]
    holds of [null] and of the empty string.  The socket that [io] returns
    is not connected yet. *)
Definition connect (token : option string) (s : t) : t * list Effect :=
  if socket_connected s then (s, [])
  else
    match token with
    | Some tk =>
        if String.eqb tk "" then (s, [])
        else
          ({| socket := Some {| connected := false; auth_token := tk |};
              reconnectAttempts := reconnectAttempts s;
              maxReconnectAttempts := maxReconnectAttempts s |},
           [Open tk])
    | None => (s, [])
    end.

Definition disconnect (s : t) : t * list Effect :=
  match socket s with
  | Some _ =>
      ({| socket := None; reconnectAttempts := reconnectAttempts s;
          maxReconnectAttempts := maxReconnectAttempts s |}, [Close])
  | None => (s, [])
  end.

(** [handleReconnect()]: the counter is incremented before the delay is
    computed from it. *)
Definition handleReconnect (s : t) : t * list Effect :=
  if reconnectAttempts s <? maxReconnectAttempts s then
    let attempts := reconnectAttempts s + 1 in
    let delay := Z.min (1000 * 2 ^ attempts) 30000 in
    ({| socket := socket s; reconnectAttempts := attempts;
        maxReconnectAttempts := maxReconnectAttempts s |},
     [SetTimeout delay])
  else (s, []).

(** The guarded emitters: [if (this.socket?.connected) this.socket.emit(...)]. *)
Definition guarded_emit (msg : ClientMsg) (s : t) : t * list Effect :=
  if socket_connected s then (s, [Emit msg]) else (s, []).

Definition joinUserRoom (userId : string) := guarded_emit (join_user_room userId).
Definition joinTeamRoom (teamId : string) := guarded_emit (join_team_room teamId).
Definition leaveTeamRoom (teamId : string) := guarded_emit (leave_team_room teamId).
Definition emitTodoCreated (todo : JsObj) := guarded_emit (todo_created todo).
Definition emitTodoUpdated (todo : JsObj) := guarded_emit (todo_updated todo).
Definition emitTodoDeleted (todoId : string) := guarded_emit (todo_deleted todoId).
Definition emitCommentAdded (comment : JsObj) := guarded_emit (comment_added comment).

(** The public room and emit operations, as one enumeration. *)
Inductive Op : Type :=
| OpJoinUserRoom (userId : string)
| OpJoinTeamRoom (teamId : string)
| OpLeaveTeamRoom (teamId : string)
| OpEmitTodoCreated (todo : JsObj)
| OpEmitTodoUpdated (todo : JsObj)
| OpEmitTodoDeleted (todoId : string)
| OpEmitCommentAdded (comment : JsObj).

Definition run (op : Op) : t -> t * list Effect :=
  match op with
  | OpJoinUserRoom u => joinUserRoom u
  | OpJoinTeamRoom g => joinTeamRoom g
  | OpLeaveTeamRoom g => leaveTeamRoom g
  | OpEmitTodoCreated d => emitTodoCreated d
  | OpEmitTodoUpdated d => emitTodoUpdated d
  | OpEmitTodoDeleted i => emitTodoDeleted i
  | OpEmitCommentAdded c => emitCommentAdded c
  end.

(** The listener of ['connect']: the transport has marked the socket
    connected; the counter is reset and the user room joined.  [user] is
    [useAuthStore.getState().user?.id]. *)
Definition on_connect (user : option string) (s : t) : t * list Effect :=
  let s' :=
    {| socket := (fun sock => {| connected := true; auth_token := auth_token sock |})
                   <$> socket s;
       reconnectAttempts := 0;
       maxReconnectAttempts := maxReconnectAttempts s |} in
  match user with
  | Some uid => joinUserRoom uid s'
  | None => (s', [])
  end.

(** The listener of ['connect_error']. *)
Definition on_connect_error (s : t) : t * list Effect := handleReconnect s.

(** The delay set by the [k]-th retry in a row. *)
Definition retry_delay (k : nat) : Z := Z.min (1000 * 2 ^ Z.of_nat k) 30000.

(** [n] connection errors in a row, with no successful connection between
    them: the final service and the delays of the timers that were set. *)
Fixpoint connect_errors (n : nat) (s : t) : t * list Z :=
  match n with
  | O => (s, [])
  | S k =>
      let '(s1, effs) := on_connect_error s in
      let '(s2, delays) := connect_errors k s1 in
      (s2, (omap (fun e => match e with SetTimeout d => Some d | _ => None end) effs
              ++ delays)%list)
  end.

End SocketService.

(** ** The Socket.io relay of the server: backend/src/index.ts *)
Module Relay.

(** What the server pushes to a client.  The three relayed events carry the
    payload that the sending client supplied. *)
Inductive ServerMsg : Type :=
| push_todo_updated (data : JsObj)
| push_todo_created (data : JsObj)
| push_todo_deleted (data : string).

(** The connected sockets, each with the rooms it is in.  Socket.io puts a
    new socket in the room named by its own identifier. *)
Abbreviation Server := (gmap string (gset string)).

(** The handshake data of a connecting client: [socket.handshake.auth.token]. *)
Record Handshake : Type := mkHandshake { auth : option string }.

(** [io.on('connection', ...)].  No middleware is installed with [io.use],
    and the callback only registers listeners: the handshake is not read. *)
Definition connection (sid : string) (hs : Handshake) (srv : Server) : Server :=
  <[sid := {[sid]}]> srv.

(** The transport closed: Socket.io drops the socket and its memberships;
    the ['disconnect'] listener only logs. *)
Definition disconnect (sid : string) (srv : Server) : Server :=
  delete sid srv.

(** [socket.join(room)] *)
Definition join (sid room : string) (srv : Server) : Server :=
  match srv !! sid with
  | Some rooms => <[sid := rooms ∪ {[room]}]> srv
  | None => srv
  end.

(** [socket.broadcast.emit(event, data)]: one packet for every connected
    socket except the sender. *)
Definition broadcast_emit (sid : string) (msg : ServerMsg) (srv : Server)
  : list (string * ServerMsg) :=
  (fun rcpt => (rcpt, msg)) <$> elements (dom srv ∖ {[sid]}).

(** The listeners registered for a connected socket.  ['leave-team-room']
    and ['comment-added'] have no listener, so those packets are ignored.
    The result is the new server state and the packets sent, each with its
    recipient. *)
Definition on (sid : string) (msg : ClientMsg) (srv : Server)
  : Server * list (string * ServerMsg) :=
  match srv !! sid with
  | None => (srv, [])
  | Some _ =>
      match msg with
      | join_user_room userId => (join sid ("user-" +:+ userId) srv, [])
      | join_team_room teamId => (join sid ("team-" +:+ teamId) srv, [])
      | todo_updated data => (srv, broadcast_emit sid (push_todo_updated data) srv)
      | todo_created data => (srv, broadcast_emit sid (push_todo_created data) srv)
      | todo_deleted data => (srv, broadcast_emit sid (push_todo_deleted data) srv)
      | leave_team_room _ => (srv, [])
      | comment_added _ => (srv, [])
      end
  end.

(** Session [sid] is currently joined to [room]. *)
Definition joined (sid room : string) (srv : Server) : Prop :=
  ∃ rooms, srv !! sid = Some rooms ∧ room ∈ rooms.

#[global] Instance joined_dec sid room srv : Decision (joined sid room srv).
Proof.
  unfold joined. destruct (srv !! sid) as [rooms|] eqn:E.
  - destruct (decide (room ∈ rooms)) as [Hin|Hout].
    + left. eauto.
    + right. intros (r & Hr & Hm). congruence.
  - right. intros (r & Hr & _). congruence.
Defined.

(** The three relayed change events. *)
Definition relayed (msg : ClientMsg) : option ServerMsg :=
  match msg with
  | todo_updated data => Some (push_todo_updated data)
  | todo_created data => Some (push_todo_created data)
  | todo_deleted data => Some (push_todo_deleted data)
  | _ => None
  end.

End Relay.

(** ** The mutation routes: backend/src/routes/todos.ts *)
Module Todos.

(** *** Storage *)

Record Todo : Type := mkTodo {
  todo_id : string;
  title : string;
  description : option string;
  priority : string;
  status : string;
  dueDate : option string;
  userId : string
}.

Record Category : Type := mkCategory {
  cat_id : string;
  cat_name : string;
  cat_userId : string
}.

Record Subtask : Type := mkSubtask {
  sub_id : string;
  sub_title : string;
  sub_completed : bool;
  sub_todoId : string
}.

Record Comment : Type := mkComment {
  com_id : string;
  com_content : string;
  com_todoId : string;
  com_userId : string
}.

(** The tables the routes touch.  [todoCategory] holds the association
    rows [(todoId, categoryId)]. *)
Record DB : Type := mkDB {
  todo : gmap string Todo;
  category : gmap string Category;
  todoCategory : list (string * string);
  subtask : gmap string Subtask;
  comment : gmap string Comment
}.

(** The Prisma schema and the validator library are not part of the routes
    file; what the routes need of them is taken as a parameter. *)
Record Schema : Type := mkSchema {
  (** the generated identifier of the next row *)
  new_id : DB -> string;
  (** the default of the column [Todo.status] *)
  default_status : string;
  (** the default of the column [Subtask.completed] *)
  default_completed : bool;
  (** whether the storage layer accepts these association rows for the
      todo (referential and uniqueness constraints of [TodoCategory]) *)
  link_ok : DB -> string -> list string -> bool;
  (** validator.js [isISO8601] *)
  isISO8601 : string -> bool
}.

(** What a request does besides answering: storage writes that committed,
    and events emitted through the Socket.io server.  The routes file never
    refers to the Socket.io server, so no operation below records an
    [EmitTo]; the constructor is what the emission of a ChangeEvent would
    leave in the trace. *)
Inductive Event : Type :=
| Commit (operation : string)
| EmitTo (room event : string).

Record World : Type := mkWorld { store : DB; trace : list Event }.

(** A computation either returns or throws; the world it leaves behind
    includes every write that committed before a throw. *)
Inductive Result (A : Type) : Type :=
| Returned (a : A)
| Threw.
Arguments Returned {A} a.
Arguments Threw {A}.

Definition M (A : Type) : Type := World -> Result A * World.

#[global] Instance M_ret : MRet M := fun A a w => (Returned a, w).
#[global] Instance M_bind : MBind M := fun A B k m w =>
  match m w with
  | (Returned a, w') => k a w'
  | (Threw, w') => (Threw, w')
  end.
Definition throw {A} : M A := fun w => (Threw, w).
(** [try { m } catch (error) { h }] *)
Definition try_catch {A} (m : M A) (h : M A) : M A :=
  fun w => match m w with
           | (Returned a, w') => (Returned a, w')
           | (Threw, w') => h w'
           end.
Definition get_db : M DB := fun w => (Returned (store w), w).
(** A write that commits: the tables change and the commit is recorded. *)
Definition commit (operation : string) (db : DB) : M unit :=
  fun w => (Returned tt, {| store := db; trace := (trace w ++ [Commit operation])%list |}).

(** The socket events among the recorded effects. *)
Definition emitted (tr : list Event) : list (string * string) :=
  omap (fun e => match e with EmitTo room ev => Some (room, ev) | Commit _ => None end) tr.

(** A computation that emits no socket event: the events of the trace are
    after it what they were before. *)
Definition silent {A} (m : M A) : Prop :=
  ∀ w, emitted (trace (m w).2) = emitted (trace w).

(** The categories associated with a todo, in row order. *)
Definition categoryIds_of (tid : string) (db : DB) : list string :=
  snd <$> filter (fun row => row.1 = tid) (todoCategory db).

(** A todo as the routes return it: with [include: { categories: { include:
    { category: true } }, subtasks: true }] and the association rows mapped
    to their category. *)
Record TodoView : Type := mkTodoView {
  row : Todo;
  categories : list (option Category);
  subtasks : list Subtask
}.

Definition view (db : DB) (t : Todo) : TodoView :=
  {| row := t;
     categories := (fun cid => category db !! cid) <$> categoryIds_of (todo_id t) db;
     subtasks := filter (fun s => sub_todoId s = todo_id t) (snd <$> map_to_list (subtask db)) |}.

(** *** The storage operations the routes call *)

(** [value || fallback] and the truthiness test on an optional string. *)
Definition truthy (v : option string) : bool :=
  match v with
  | Some s => negb (String.eqb s "")
  | None => false
  end.
Definition or_else (v : option string) (fallback : string) : string :=
  match v with
  | Some s => if String.eqb s "" then fallback else s
  | None => fallback
  end.

(** The [data] argument of [prisma.todo.create] as the route builds it;
    [c_categories] is the nested [categories: { create: [...] }], absent
    when the route does not set the key. *)
Record TodoCreateInput : Type := mkTodoCreateInput {
  c_title : option string;
  c_description : option string;
  c_priority : string;
  c_dueDate : option string;
  c_userId : string;
  c_categories : option (list string)
}.

(** The [data] argument of [prisma.todo.update]: only the keys that were
    assigned are present. *)
Record TodoUpdateInput : Type := mkTodoUpdateInput {
  u_title : option string;
  u_description : option string;
  u_priority : option string;
  u_status : option string;
  u_dueDate : option (option string);
  u_categories : option (list string)
}.

Definition with_todo (f : gmap string Todo -> gmap string Todo) (db : DB) : DB :=
  {| todo := f (todo db); category := category db;
     todoCategory := todoCategory db; subtask := subtask db;
     comment := comment db |}.
Definition with_todoCategory (f : list (string * string) -> list (string * string))
  (db : DB) : DB :=
  {| todo := todo db; category := category db;
     todoCategory := f (todoCategory db); subtask := subtask db;
     comment := comment db |}.
Definition with_subtask (f : gmap string Subtask -> gmap string Subtask) (db : DB) : DB :=
  {| todo := todo db; category := category db;
     todoCategory := todoCategory db; subtask := f (subtask db);
     comment := comment db |}.
Definition with_comment (f : gmap string Comment -> gmap string Comment) (db : DB) : DB :=
  {| todo := todo db; category := category db;
     todoCategory := todoCategory db; subtask := subtask db;
     comment := f (comment db) |}.

Definition link_rows (tid : string) (cids : list string) : list (string * string) :=
  (fun cid => (tid, cid)) <$> cids.

Section Routes.
Variable schema : Schema.

(** [prisma.todo.findFirst({ where: { id, userId } })] *)
Definition todo_findFirst (id user : string) : M (option Todo) :=
  db ← get_db;
  mret (match todo db !! id with
        | Some t => if decide (userId t = user) then Some t else None
        | None => None
        end).

(** [prisma.todo.create({ data, include })]: the todo and its nested
    association rows are written together or not at all. *)
Definition todo_create (data : TodoCreateInput) : M TodoView :=
  db ← get_db;
  match c_title data with
  | None => throw
  | Some ttl =>
      let id := new_id schema db in
      let links := default [] (c_categories data) in
      if decide (is_Some (todo db !! id)) then throw
      else if negb (link_ok schema db id links) then throw
      else
        let t := {| todo_id := id; title := ttl;
                    description := c_description data;
                    priority := c_priority data;
                    status := default_status schema;
                    dueDate := c_dueDate data;
                    userId := c_userId data |} in
        let db' := with_todoCategory (fun rows => (rows ++ link_rows id links)%list)
                     (with_todo (insert id t) db) in
        commit "todo.create" db';; mret (view db' t)
  end.

(** [prisma.todoCategory.deleteMany({ where: { todoId } })] *)
Definition todoCategory_deleteMany (tid : string) : M unit :=
  db ← get_db;
  commit "todoCategory.deleteMany"
    (with_todoCategory (filter (fun r => r.1 ≠ tid)) db).

Definition apply_update (data : TodoUpdateInput) (t : Todo) : Todo :=
  {| todo_id := todo_id t;
     title := default (title t) (u_title data);
     description := match u_description data with
                    | Some d => Some d
                    | None => description t
                    end;
     priority := default (priority t) (u_priority data);
     status := default (status t) (u_status data);
     dueDate := default (dueDate t) (u_dueDate data);
     userId := userId t |}.

(** [prisma.todo.update({ where: { id }, data, include })], with its
    nested association rows, written together or not at all. *)
Definition todo_update (id : string) (data : TodoUpdateInput) : M TodoView :=
  db ← get_db;
  match todo db !! id with
  | None => throw
  | Some t =>
      let links := default [] (u_categories data) in
      if negb (link_ok schema db id links) then throw
      else
        let t' := apply_update data t in
        let db' := with_todoCategory (fun rows => (rows ++ link_rows id links)%list)
                     (with_todo (insert id t') db) in
        commit "todo.update" db';; mret (view db' t')
  end.

(** Modelled from the spec: the schema's deletion rule for the rows that
    hang off a todo, which is not part of the routes file; deleting a
    todo cascades to its subtasks, comments and association rows. *)
Definition todo_delete (id : string) : M unit :=
  db ← get_db;
  match todo db !! id with
  | None => throw
  | Some _ =>
      commit "todo.delete"
        (with_comment (filter (fun kv => com_todoId kv.2 ≠ id))
          (with_subtask (filter (fun kv => sub_todoId kv.2 ≠ id))
            (with_todoCategory (filter (fun r => r.1 ≠ id))
              (with_todo (delete id) db))))
  end.

(** [prisma.subtask.create({ data: { title, todoId } })] *)
Definition subtask_create (ttl : option string) (tid : string) : M Subtask :=
  db ← get_db;
  match ttl with
  | None => throw
  | Some ttl =>
      let id := new_id schema db in
      if decide (is_Some (subtask db !! id)) then throw
      else if decide (is_Some (todo db !! tid)) then
        let s := {| sub_id := id; sub_title := ttl;
                    sub_completed := default_completed schema;
                    sub_todoId := tid |} in
        commit "subtask.create" (with_subtask (insert id s) db);; mret s
      else throw
  end.

(** [prisma.subtask.findFirst({ where: { id, todo: { userId } } })] *)
Definition subtask_findFirst (id user : string) : M (option Subtask) :=
  db ← get_db;
  mret (match subtask db !! id with
        | Some s =>
            match todo db !! sub_todoId s with
            | Some t => if decide (userId t = user) then Some s else None
            | None => None
            end
        | None => None
        end).

(** [prisma.subtask.update({ where: { id }, data })] *)
Definition subtask_update (id : string) (ttl : option string)
  (completed : option bool) : M Subtask :=
  db ← get_db;
  match subtask db !! id with
  | None => throw
  | Some s =>
      let s' := {| sub_id := sub_id s;
                   sub_title := default (sub_title s) ttl;
                   sub_completed := default (sub_completed s) completed;
                   sub_todoId := sub_todoId s |} in
      commit "subtask.update" (with_subtask (insert id s') db);; mret s'
  end.

(** [prisma.subtask.delete({ where: { id } })] *)
Definition subtask_delete (id : string) : M unit :=
  db ← get_db;
  match subtask db !! id with
  | None => throw
  | Some _ => commit "subtask.delete" (with_subtask (delete id) db)
  end.

(** [prisma.comment.create({ data: { content, todoId, userId } })] *)
Definition comment_create (content : option string) (tid user : string)
  : M Comment :=
  db ← get_db;
  match content with
  | None => throw
  | Some text =>
      let id := new_id schema db in
      if decide (is_Some (comment db !! id)) then throw
      else if decide (is_Some (todo db !! tid)) then
        let c := {| com_id := id; com_content := text;
                    com_todoId := tid; com_userId := user |} in
        commit "comment.create" (with_comment (insert id c) db);; mret c
      else throw
  end.

(** *** Requests, validation and responses *)

(** [{ success: true, data }] with its HTTP status, or
    [{ success: false, error, details }] with its HTTP status; [details]
    lists the fields that failed validation. *)
Inductive Payload : Type :=
| PTodo (t : TodoView)
| PSubtask (s : Subtask)
| PComment (c : Comment)
| PNone.

Inductive Response : Type :=
| Success (code : Z) (data : Payload)
| Failure (code : Z) (error : string) (details : list string).

Definition status_code (r : Response) : Z :=
  match r with
  | Success code _ => code
  | Failure code _ _ => code
  end.

(** express-validator: [notEmpty()], [optional()], [isIn([...])]. *)
Definition notEmpty (v : option string) : bool :=
  match v with
  | Some s => negb (String.eqb s "")
  | None => false
  end.
Definition optional (check : option string -> bool) (v : option string) : bool :=
  match v with
  | Some _ => check v
  | None => true
  end.
Definition isIn (allowed : list string) (v : option string) : bool :=
  match v with
  | Some s => bool_decide (s ∈ allowed)
  | None => false
  end.
Definition iso8601 (v : option string) : bool :=
  match v with
  | Some s => isISO8601 schema s
  | None => false
  end.
Definition fails (field : string) (ok : bool) : list string :=
  if ok then [] else [field].

Definition priorities : list string := ["LOW"; "MEDIUM"; "HIGH"; "URGENT"].
Definition statuses : list string := ["TODO"; "IN_PROGRESS"; "COMPLETED"; "CANCELLED"].

(** The body of [POST /] and of [PUT /:id]; an absent key is [None].  The
    text keys hold strings and [categoryIds] holds an array of identifiers,
    so that the validator [body('categoryIds').optional().isArray()] of both
    routes holds of every body of this type and adds no entry to the errors
    below; [Incoming] has the bodies of both routes with a [categoryIds]
    that may be something else. *)
Record TodoBody : Type := mkTodoBody {
  b_title : option string;
  b_description : option string;
  b_priority : option string;
  b_status : option string;
  b_dueDate : option string;
  b_categoryIds : option (list string)
}.

(** The handlers wrap their whole body in [try]/[catch] and the [catch]
    block only answers, so a handler always produces a response. *)
Definition answer (handler : M Response) (fallback : Response) (w : World)
  : Response * World :=
  match try_catch handler (mret fallback) w with
  | (Returned r, w') => (r, w')
  | (Threw, w') => (fallback, w')
  end.

Definition create_errors (body : TodoBody) : list string :=
  (fails "title" (notEmpty (b_title body))
   ++ fails "priority" (optional (isIn priorities) (b_priority body))
   ++ fails "dueDate" (optional iso8601 (b_dueDate body)))%list.

(** [router.post('/', authenticate, [...], ...)]; [user] is [req.user.id]. *)
Definition createTodo (user : string) (body : TodoBody) : World -> Response * World :=
  answer
    (let errors := create_errors body in
     if negb (bool_decide (errors = [])) then
       mret (Failure 400 "Validation failed" errors)
     else
       let todoData :=
         {| c_title := b_title body;
            c_description := b_description body;
            c_priority := or_else (b_priority body) "MEDIUM";
            c_dueDate := if truthy (b_dueDate body) then b_dueDate body else None;
            c_userId := user;
            c_categories := match b_categoryIds body with
                            | Some (cid :: rest) => Some (cid :: rest)
                            | _ => None
                            end |} in
       t ← todo_create todoData;
       mret (Success 201 (PTodo t)))
    (Failure 500 "Failed to create todo" []).

Definition update_errors (body : TodoBody) : list string :=
  (fails "title" (optional notEmpty (b_title body))
   ++ fails "priority" (optional (isIn priorities) (b_priority body))
   ++ fails "status" (optional (isIn statuses) (b_status body))
   ++ fails "dueDate" (optional iso8601 (b_dueDate body)))%list.

(** The keys of [updateData] that the update route copies from the body:
    [if (x !== undefined) updateData.x = x], and for [dueDate] the date or
    [null]. *)
Definition update_fields (body : TodoBody) : TodoUpdateInput :=
  {| u_title := b_title body;
     u_description := b_description body;
     u_priority := b_priority body;
     u_status := b_status body;
     u_dueDate := match b_dueDate body with
                  | Some d => Some (if truthy (Some d) then Some d else None)
                  | None => None
                  end;
     u_categories := None |}.

(** [router.put('/:id', authenticate, [...], ...)] *)
Definition updateTodo (user id : string) (body : TodoBody) : World -> Response * World :=
  answer
    (let errors := update_errors body in
     if negb (bool_decide (errors = [])) then
       mret (Failure 400 "Validation failed" errors)
     else
       existingTodo ← todo_findFirst id user;
       match existingTodo with
       | None => mret (Failure 404 "Todo not found" [])
       | Some _ =>
           let fields := update_fields body in
           updateData ←
             match b_categoryIds body with
             | Some categoryIds =>
                 todoCategory_deleteMany id;;
                 mret (match categoryIds with
                       | cid :: rest =>
                           {| u_title := u_title fields;
                              u_description := u_description fields;
                              u_priority := u_priority fields;
                              u_status := u_status fields;
                              u_dueDate := u_dueDate fields;
                              u_categories := Some (cid :: rest) |}
                       | [] => fields
                       end)
             | None => mret fields
             end;
           updatedTodo ← todo_update id updateData;
           mret (Success 200 (PTodo updatedTodo))
       end)
    (Failure 500 "Failed to update todo" []).

(** [router.delete('/:id', authenticate, ...)] *)
Definition deleteTodo (user id : string) : World -> Response * World :=
  answer
    (existingTodo ← todo_findFirst id user;
     match existingTodo with
     | None => mret (Failure 404 "Todo not found" [])
     | Some _ => todo_delete id;; mret (Success 200 PNone)
     end)
    (Failure 500 "Failed to delete todo" []).

(** [router.post('/:id/subtasks', authenticate, [...], ...)] *)
Definition createSubtask (user id : string) (ttl : option string)
  : World -> Response * World :=
  answer
    (let errors := fails "title" (notEmpty ttl) in
     if negb (bool_decide (errors = [])) then
       mret (Failure 400 "Validation failed" errors)
     else
       found ← todo_findFirst id user;
       match found with
       | None => mret (Failure 404 "Todo not found" [])
       | Some _ =>
           s ← subtask_create ttl id;
           mret (Success 201 (PSubtask s))
       end)
    (Failure 500 "Failed to create subtask" []).

(** [router.put('/subtasks/:subtaskId', authenticate, [...], ...)] *)
Definition updateSubtask (user subtaskId : string) (ttl : option string)
  (completed : option bool) : World -> Response * World :=
  answer
    (let errors := fails "title" (optional notEmpty ttl) in
     if negb (bool_decide (errors = [])) then
       mret (Failure 400 "Validation failed" errors)
     else
       found ← subtask_findFirst subtaskId user;
       match found with
       | None => mret (Failure 404 "Subtask not found" [])
       | Some _ =>
           s ← subtask_update subtaskId ttl completed;
           mret (Success 200 (PSubtask s))
       end)
    (Failure 500 "Failed to update subtask" []).

(** [router.delete('/subtasks/:subtaskId', authenticate, ...)] *)
Definition deleteSubtask (user subtaskId : string) : World -> Response * World :=
  answer
    (found ← subtask_findFirst subtaskId user;
     match found with
     | None => mret (Failure 404 "Subtask not found" [])
     | Some _ => subtask_delete subtaskId;; mret (Success 200 PNone)
     end)
    (Failure 500 "Failed to delete subtask" []).

(** [router.post('/:id/comments', authenticate, [...], ...)] *)
Definition addComment (user id : string) (content : option string)
  : World -> Response * World :=
  answer
    (let errors := fails "content" (notEmpty content) in
     if negb (bool_decide (errors = [])) then
       mret (Failure 400 "Validation failed" errors)
     else
       found ← todo_findFirst id user;
       match found with
       | None => mret (Failure 404 "Todo not found" [])
       | Some _ =>
           c ← comment_create content id user;
           mret (Success 201 (PComment c))
       end)
    (Failure 500 "Failed to add comment" []).

(** Every mutation request the routes file serves. *)
Inductive Mutation : Type :=
| CreateTodo (body : TodoBody)
| UpdateTodo (id : string) (body : TodoBody)
| DeleteTodo (id : string)
| CreateSubtask (id : string) (ttl : option string)
| UpdateSubtask (subtaskId : string) (ttl : option string) (completed : option bool)
| DeleteSubtask (subtaskId : string)
| AddComment (id : string) (content : option string).

Definition serve (user : string) (req : Mutation) : World -> Response * World :=
  match req with
  | CreateTodo body => createTodo user body
  | UpdateTodo id body => updateTodo user id body
  | DeleteTodo id => deleteTodo user id
  | CreateSubtask id ttl => createSubtask user id ttl
  | UpdateSubtask sid ttl completed => updateSubtask user sid ttl completed
  | DeleteSubtask sid => deleteSubtask user sid
  | AddComment id content => addComment user id content
  end.

End Routes.

End Todos.

(** ** Concrete instances used to evaluate the model *)
Module Fixtures.
Import Todos.

Definition is_digit (c : Ascii.ascii) : bool :=
  let n := Ascii.nat_of_ascii c in (48 <=? n)%nat && (n <=? 57)%nat.

(** The calendar-date form [YYYY-MM-DD] of ISO 8601. *)
Definition calendar_date (s : string) : bool :=
  match Stdlib.Strings.String.list_ascii_of_string s with
  | [y1; y2; y3; y4; d1; m1; m2; d2; a1; a2] =>
      forallb is_digit [y1; y2; y3; y4; m1; m2; a1; a2]
      && Ascii.eqb d1 "-"%char && Ascii.eqb d2 "-"%char
  | _ => false
  end.

(** Every association row must name an existing category, and a todo holds
    a category at most once. *)
Definition relational_link_ok (db : DB) (tid : string) (cids : list string) : bool :=
  forallb (fun cid => bool_decide (is_Some (category db !! cid))) cids
  && bool_decide (NoDup cids)
  && forallb (fun cid => bool_decide ((tid, cid) ∉ todoCategory db)) cids.

(** Modelled from the spec: the column defaults of the Prisma schema, which
    is not part of the routes file; a new todo has status TODO.  The
    association rows are checked as a relational store does, and row
    identifiers are numbered. *)
Definition relational : Schema :=
  {| new_id := fun db =>
       "row-" +:+ pretty (size (todo db) + size (subtask db) + size (comment db))%nat;
     default_status := "TODO";
     default_completed := false;
     link_ok := relational_link_ok;
     isISO8601 := calendar_date |}.

(** Two users; ["cat-1"] belongs to alice and ["cat-9"] to bob. *)
Definition db0 : DB :=
  {| todo := {[ "t1" := {| todo_id := "t1"; title := "Write report";
                           description := None; priority := "HIGH";
                           status := "TODO"; dueDate := None;
                           userId := "alice" |} ]};
     category := {[ "cat-1" := {| cat_id := "cat-1"; cat_name := "Work";
                                  cat_userId := "alice" |};
                    "cat-9" := {| cat_id := "cat-9"; cat_name := "Private";
                                  cat_userId := "bob" |} ]};
     todoCategory := [("t1", "cat-1")];
     subtask := ∅;
     comment := ∅ |}.

Definition w0 : World := {| store := db0; trace := [] |}.

Definition buy_milk : TodoBody :=
  {| b_title := Some "Buy milk"; b_description := None; b_priority := None;
     b_status := None; b_dueDate := None; b_categoryIds := None |}.

Definition no_title : TodoBody :=
  {| b_title := Some ""; b_description := None; b_priority := None;
     b_status := None; b_dueDate := None; b_categoryIds := None |}.

(** A create request of alice that names bob's category. *)
Definition with_bobs_category : TodoBody :=
  {| b_title := Some "Buy milk"; b_description := None; b_priority := None;
     b_status := None; b_dueDate := None; b_categoryIds := Some ["cat-9"] |}.

(** An update request that replaces the categories of a todo by one that
    does not exist. *)
Definition recategorise (cids : list string) : TodoBody :=
  {| b_title := None; b_description := None; b_priority := None;
     b_status := None; b_dueDate := None; b_categoryIds := Some cids |}.

(** Cache entries and pushed payloads. *)
Definition cached_todo : JsObj :=
  {[ "id" := JStr "t1"; "title" := JStr "Write report" ]}.
Definition update1 : JsObj :=
  {[ "id" := JStr "t1"; "title" := JStr "Write the report";
     "description" := JStr "due on Friday" ]}.
Definition update2 : JsObj :=
  {[ "id" := JStr "t1"; "title" := JStr "Report" ]}.

Definition cache0 : Store.TodoState :=
  Store.setTodos [cached_todo] Store.initial.

(** Two connected sessions; only ["A"] has joined the room of user 1. *)
Definition srv0 : Relay.Server :=
  (Relay.on "A" (join_user_room "1")
     (Relay.connection "B" {| Relay.auth := None |}
        (Relay.connection "A" {| Relay.auth := Some "token-of-user-1" |} ∅))).1.

End Fixtures.

(** ** The authentication store: [useAuthStore] of store/index.ts *)
Module AuthStore.

Record AuthState : Type := mkAuthState {
  user : option JsObj;
  token : option string;
  isAuthenticated : bool;
  isLoading : bool
}.

Definition initial : AuthState :=
  {| user := None; token := None; isAuthenticated := false; isLoading := false |}.

(** [login(user, token)] *)
Definition login (u : JsObj) (tk : string) (st : AuthState) : AuthState :=
  {| user := Some u; token := Some tk; isAuthenticated := true; isLoading := false |}.

(** [logout()] *)
Definition logout (st : AuthState) : AuthState :=
  {| user := None; token := None; isAuthenticated := false; isLoading := false |}.

(** [setLoading(loading)] *)
Definition setLoading (loading : bool) (st : AuthState) : AuthState :=
  {| user := user st; token := token st; isAuthenticated := isAuthenticated st;
     isLoading := loading |}.

(** [updateUser(userData)]: merged into the current user, if there is one. *)
Definition updateUser (userData : JsObj) (st : AuthState) : AuthState :=
  match user st with
  | Some currentUser =>
      {| user := Some (spread currentUser userData); token := token st;
         isAuthenticated := isAuthenticated st; isLoading := isLoading st |}
  | None => st
  end.

(** [token] used as a condition: [null] and the empty string are falsy. *)
Definition token_truthy (st : AuthState) : bool :=
  match token st with
  | Some tk => negb (String.eqb tk "")
  | None => false
  end.

End AuthStore.

(** ** The remaining actions of [useTodoStore] *)
Module StoreActions.
Import Store.

Definition set_filters (f : gmap string string) (st : TodoState) : TodoState :=
  {| todos := todos st; categories := categories st; isLoading := isLoading st;
     error := error st; filters := f |}.

(** [filters: { ...state.filters, ...newFilters }] *)
Definition setFilters (newFilters : gmap string string) (st : TodoState) : TodoState :=
  set_filters (newFilters ∪ filters st) st.

(** [set({ filters: {} })] *)
Definition clearFilters (st : TodoState) : TodoState := set_filters ∅ st.

End StoreActions.

(** ** The callers of the stores and of the socket service *)
Module App.
Import AuthStore.

(** The socket effect of App.tsx:
    [if (isAuthenticated && token) socketService.connect() else
    socketService.disconnect()]; [connect] reads the token of the same
    store. *)
Definition socket_effect (a : AuthState) (svc : SocketService.t)
  : SocketService.t * list SocketService.Effect :=
  if isAuthenticated a && token_truthy a
  then SocketService.connect (token a) svc
  else SocketService.disconnect svc.

(** The clean-up of that effect: [return () => socketService.disconnect()]. *)
Definition socket_cleanup (svc : SocketService.t)
  : SocketService.t * list SocketService.Effect :=
  SocketService.disconnect svc.

(** [isAuthenticated] or [token] changed: React runs the clean-up of the
    previous run and then the effect with the new values. *)
Definition socket_effect_rerun (a : AuthState) (svc : SocketService.t)
  : SocketService.t * list SocketService.Effect :=
  let '(svc1, closed) := socket_cleanup svc in
  let '(svc2, opened) := socket_effect a svc1 in
  (svc2, (closed ++ opened)%list).

(** The request interceptor of api.ts:
    [if (token) config.headers.Authorization = `Bearer ${token}`]. *)
Definition request_interceptor (a : AuthState) (headers : gmap string string)
  : gmap string string :=
  match token a with
  | Some tk =>
      if String.eqb tk "" then headers
      else <["Authorization" := "Bearer " +:+ tk]> headers
  | None => headers
  end.

(** The error branch of the response interceptor of api.ts; [status] is
    [error.response?.status].  The result is the authentication store and
    the page the browser is sent to, if any; the error is rejected again in
    every case. *)
Definition response_error_interceptor (status : option Z) (a : AuthState)
  : AuthState * option string :=
  match status with
  | Some code =>
      if code =? 401 then (logout a, Some "/login") else (a, None)
  | None => (a, None)
  end.

(** The identifier of the logged-in user, as the ['connect'] listener of
    socket.ts reads it: [useAuthStore.getState().user] and then [user.id]. *)
Definition user_id (a : AuthState) : option string :=
  match user a with
  | Some u =>
      match u !! "id" with
      | Some (JStr i) => Some i
      | _ => None
      end
  | None => None
  end.

End App.

(** ** Paging of the todo list: [GET /] of routes/todos.ts *)
Module Listing.

(** [parseInt(...) || fallback]: [parsed] is what [parseInt] returned, with
    [None] for [NaN]; [NaN] and [0] are falsy. *)
Definition or_fallback (parsed : option Z) (fallback : Z) : Z :=
  match parsed with
  | Some n => if n =? 0 then fallback else n
  | None => fallback
  end.

Record Paging : Type := mkPaging { page : Z; limit : Z; skip : Z }.

(** [page], [limit] and [skip = (page - 1) * limit]. *)
Definition paging (parsedPage parsedLimit : option Z) : Paging :=
  let page := or_fallback parsedPage 1 in
  let limit := or_fallback parsedLimit 10 in
  {| page := page; limit := limit; skip := (page - 1) * limit |}.

(** [pages: Math.ceil(total / limit)], on integers. *)
Definition pages (total limit : Z) : Z := - ((- total) / limit).

(** The rows that [findMany({ skip, take: limit })] returns of the ordered
    rows that match, for a [skip] and a [limit] that are not negative. *)
Definition window {A} (pg : Paging) (rows : list A) : list A :=
  take (Z.to_nat (limit pg)) (drop (Z.to_nat (skip pg)) rows).

End Listing.

(** ** What a mutation request addresses *)
Module Access.
Import Todos.

(** The request is an update that carries [categoryIds]. *)
Definition replaces_categories (req : Mutation) : bool :=
  match req with
  | UpdateTodo _ body => bool_decide (is_Some (b_categoryIds body))
  | _ => false
  end.

(** The row that the request addresses is not there for [user]: the todo
    (or, for a subtask, the todo it hangs off) is missing or belongs to
    another user, so that the ownership check of the route finds nothing. *)
Definition hidden (user : string) (req : Mutation) (db : DB) : Prop :=
  match req with
  | CreateTodo _ => False
  | UpdateTodo id _ | DeleteTodo id | CreateSubtask id _ | AddComment id _ =>
      ∀ t, todo db !! id = Some t → userId t ≠ user
  | UpdateSubtask sid _ _ | DeleteSubtask sid =>
      ∀ s t, subtask db !! sid = Some s →
             todo db !! sub_todoId s = Some t → userId t ≠ user
  end.

(** What the routes answer when the addressed row is hidden: the validation
    failure, if the body has one, and else "not found". *)
Definition hidden_answer (schema : Schema) (req : Mutation) : Response :=
  let refuse (errors : list string) (what : string) :=
    if bool_decide (errors = []) then Failure 404 what []
    else Failure 400 "Validation failed" errors in
  match req with
  | CreateTodo _ => Failure 404 "Todo not found" []
  | UpdateTodo _ body => refuse (update_errors schema body) "Todo not found"
  | DeleteTodo _ => Failure 404 "Todo not found" []
  | CreateSubtask _ ttl => refuse (fails "title" (notEmpty ttl)) "Todo not found"
  | UpdateSubtask _ ttl _ =>
      refuse (fails "title" (optional notEmpty ttl)) "Subtask not found"
  | DeleteSubtask _ => Failure 404 "Subtask not found" []
  | AddComment _ content => refuse (fails "content" (notEmpty content)) "Todo not found"
  end.

End Access.

(** ** The request bodies as they arrive *)
Module Incoming.
Import Todos.

(** The value of the [categoryIds] key, which the route checks with
    [isArray()]: an array of identifiers, or a JSON value of another kind. *)
Inductive IdsValue : Type :=
| IdArray (ids : list string)
| NotArray.

(** The keys that [POST /] reads; the text keys hold strings when present. *)
Record PostBody : Type := mkPostBody {
  p_title : option string;
  p_description : option string;
  p_priority : option string;
  p_dueDate : option string;
  p_categoryIds : option IdsValue
}.

(** [body('categoryIds').optional().isArray()] *)
Definition isArray (v : option IdsValue) : bool :=
  match v with
  | Some (IdArray _) => true
  | Some NotArray => false
  | None => true
  end.

(** The body once [categoryIds] is known to be an array or absent, which is
    what the handler works on after validation. *)
Definition typed (body : PostBody) : TodoBody :=
  {| b_title := p_title body;
     b_description := p_description body;
     b_priority := p_priority body;
     b_status := None;
     b_dueDate := p_dueDate body;
     b_categoryIds := match p_categoryIds body with
                      | Some (IdArray ids) => Some ids
                      | _ => None
                      end |}.

(** [validationResult(req).array()] for the five validators of [POST /], in
    the order of the chain: title, description (no check), priority,
    dueDate, categoryIds. *)
Definition post_errors (schema : Schema) (body : PostBody) : list string :=
  (create_errors schema (typed body)
   ++ fails "categoryIds" (isArray (p_categoryIds body)))%list.

(** [router.post('/', ...)] on the body as it arrives: the validation
    failure if there is one, and else the handler on the validated body. *)
Definition postTodo (schema : Schema) (user : string) (body : PostBody)
  : World -> Response * World :=
  fun w =>
    if bool_decide (post_errors schema body = [])
    then createTodo schema user (typed body) w
    else (Failure 400 "Validation failed" (post_errors schema body), w).

(** The keys that [PUT /:id] reads; the text keys hold strings when
    present. *)
Record PutBody : Type := mkPutBody {
  r_title : option string;
  r_description : option string;
  r_priority : option string;
  r_status : option string;
  r_dueDate : option string;
  r_categoryIds : option IdsValue
}.

(** The body of [PUT /:id] once [categoryIds] is known to be an array or
    absent. *)
Definition typed_put (body : PutBody) : TodoBody :=
  {| b_title := r_title body;
     b_description := r_description body;
     b_priority := r_priority body;
     b_status := r_status body;
     b_dueDate := r_dueDate body;
     b_categoryIds := match r_categoryIds body with
                      | Some (IdArray ids) => Some ids
                      | _ => None
                      end |}.

(** [validationResult(req).array()] for the six validators of [PUT /:id], in
    the order of the chain: title, description (no check), priority, status,
    dueDate, categoryIds. *)
Definition put_errors (schema : Schema) (body : PutBody) : list string :=
  (update_errors schema (typed_put body)
   ++ fails "categoryIds" (isArray (r_categoryIds body)))%list.

(** [router.put('/:id', ...)] on the body as it arrives. *)
Definition putTodo (schema : Schema) (user id : string) (body : PutBody)
  : World -> Response * World :=
  fun w =>
    if bool_decide (put_errors schema body = [])
    then updateTodo schema user id (typed_put body) w
    else (Failure 400 "Validation failed" (put_errors schema body), w).

(** The value of the [completed] key of [PUT /subtasks/:subtaskId], which
    the route checks with [isBoolean()]: a JSON boolean, or a value that the
    validator refuses.  (The validator also lets the texts and numbers
    [true], [false], [1] and [0] through; they are not booleans and are
    outside this type.) *)
Inductive FlagValue : Type :=
| Flag (b : bool)
| NotBoolean.

(** The keys that [PUT /subtasks/:subtaskId] reads; the title holds a string
    when present. *)
Record SubtaskBody : Type := mkSubtaskBody {
  s_title : option string;
  s_completed : option FlagValue
}.

(** [body('completed').optional().isBoolean()] *)
Definition isBoolean (v : option FlagValue) : bool :=
  match v with
  | Some (Flag _) => true
  | Some NotBoolean => false
  | None => true
  end.

(** The [completed] that the handler reads after validation. *)
Definition flag (body : SubtaskBody) : option bool :=
  match s_completed body with
  | Some (Flag b) => Some b
  | _ => None
  end.

(** [validationResult(req).array()] for the two validators of
    [PUT /subtasks/:subtaskId], in the order of the chain. *)
Definition subtask_errors (body : SubtaskBody) : list string :=
  (fails "title" (optional notEmpty (s_title body))
   ++ fails "completed" (isBoolean (s_completed body)))%list.

(** [router.put('/subtasks/:subtaskId', ...)] on the body as it arrives. *)
Definition putSubtask (user subtaskId : string) (body : SubtaskBody)
  : World -> Response * World :=
  fun w =>
    if bool_decide (subtask_errors body = [])
    then updateSubtask user subtaskId (s_title body) (flag body) w
    else (Failure 400 "Validation failed" (subtask_errors body), w).

End Incoming.

(** ** Further concrete requests and stores *)
Module MoreFixtures.
Import Todos Fixtures.

Definition empty_db : DB :=
  {| todo := ∅; category := ∅; todoCategory := []; subtask := ∅; comment := ∅ |}.

Definition empty_world : World := {| store := empty_db; trace := [] |}.

(** A request that only marks a todo as completed. *)
Definition complete_it : TodoBody :=
  {| b_title := None; b_description := None; b_priority := None;
     b_status := Some "COMPLETED"; b_dueDate := None; b_categoryIds := None |}.

(** The store after alice has added the subtask ["Draft"] to her todo. *)
Definition w_with_subtask : World :=
  (createSubtask relational "alice" "t1" (Some "Draft") w0).2.

End MoreFixtures.

(** * Properties *)

(** ** The client cache *)
Section CacheFacts.
Import Store Fixtures.

Lemma strict_eq_str (a b : string) :
  strict_eq (Some (JStr a)) (Some (JStr b)) = bool_decide (a = b).
Proof.
  simpl. destruct (String.eqb_spec a b).
  - by rewrite bool_decide_eq_true_2.
  - by rewrite bool_decide_eq_false_2.
Qed.

Lemma spread_lookup (base over : JsObj) (key : string) :
  spread base over !! key =
    match over !! key with
    | Some v => Some v
    | None => base !! key
    end.
Proof.
  unfold spread. rewrite lookup_union.
  destruct (over !! key), (base !! key); reflexivity.
Qed.

Lemma spread_covered (base over : JsObj) :
  spread base over = over ↔ dom base ⊆ dom over.
Proof.
  unfold spread. split.
  - intros Heq key Hin. rewrite <- Heq, dom_union. set_solver.
  - intros Hsub. apply map_eq. intros key. rewrite lookup_union.
    destruct (over !! key) eqn:Hover.
    + by destruct (base !! key).
    + assert (base !! key = None) as ->; [|done].
      apply not_elem_of_dom. intros Hin. apply Hsub in Hin.
      by apply not_elem_of_dom in Hover.
Qed.

(** One [updated] event: the entries with its identifier are merged with
    the payload, the others are kept. *)
Lemma on_todo_updated_todos (E : JsObj) st :
  todos (on_todo_updated E st) =
    map (fun t => if strict_eq (t !! "id") (E !! "id") then spread t E else t)
        (todos st).
Proof. reflexivity. Qed.

(** C4, as amended: a [created] event is always inserted at the head of the
    cached collection, whether or not an entity with its identifier is
    cached already; nothing else of the cache changes. *)
Theorem created_inserted_at_head (todo : JsObj) (st : TodoState) :
  let st' := on_todo_created todo st in
  todos st' = todo :: todos st
  ∧ length (todos st') = S (length (todos st))
  ∧ categories st' = categories st
  ∧ isLoading st' = isLoading st
  ∧ error st' = error st
  ∧ filters st' = filters st.
Proof. cbn. repeat split. Qed.

(** C4, the claim as stated fails: a [created] event for the cached
    identifier ["t1"] changes the cache, which then holds the entity twice. *)
Lemma created_duplicate_is_stored_twice :
  cached (cached_todo !! "id") cache0 = true
  ∧ on_todo_created cached_todo cache0 ≠ cache0
  ∧ todos (on_todo_created cached_todo cache0) = [cached_todo; cached_todo].
Proof.
  split; [by vm_compute|]. split; [|reflexivity].
  intros Heq. apply (f_equal (fun st => length (todos st))) in Heq.
  discriminate Heq.
Qed.

(** C5, as amended: after two [updated] events E1 then E2 for the same
    identifier, every cached entry with that identifier is the shallow merge
    of E2 over E1 over the old entry, so each field comes from the last
    delivered payload that carries it; entries with another identifier are
    untouched, and no field of the payloads (such as a timestamp) decides
    the order.  The entry equals E2 exactly when E2 carries every field of
    E1 and of the old entry. *)
Theorem updated_twice_is_shallow_merge (i : string) (E1 E2 : JsObj) (st : TodoState) :
  E1 !! "id" = Some (JStr i) →
  E2 !! "id" = Some (JStr i) →
  todos (on_todo_updated E2 (on_todo_updated E1 st)) =
    map (fun t => if strict_eq (t !! "id") (Some (JStr i))
                  then E2 ∪ (E1 ∪ t) else t) (todos st)
  ∧ (∀ (t : JsObj) (key : string),
       (E2 ∪ (E1 ∪ t)) !! key =
         match E2 !! key with
         | Some v => Some v
         | None => match E1 !! key with
                   | Some v => Some v
                   | None => t !! key
                   end
         end)
  ∧ (∀ t : JsObj, E2 ∪ (E1 ∪ t) = E2 ↔ dom E1 ∪ dom t ⊆ dom E2).
Proof.
  intros H1 H2. split; [|split].
  - rewrite !on_todo_updated_todos, H1, H2, map_map.
    apply map_ext. intros t.
    destruct (strict_eq (t !! "id") (Some (JStr i))) eqn:Hid.
    + rewrite spread_lookup, H1, strict_eq_str, bool_decide_eq_true_2 by done.
      reflexivity.
    + by rewrite Hid.
  - intros t key. by rewrite <- !spread_lookup.
  - intros t. change (E2 ∪ (E1 ∪ t)) with (spread (spread t E1) E2).
    rewrite spread_covered. unfold spread. by rewrite dom_union_L.
Qed.

Lemma updated_twice_is_shallow_merge_witness :
  update1 !! "id" = Some (JStr "t1")
  ∧ update2 !! "id" = Some (JStr "t1")
  ∧ todos (on_todo_updated update2 (on_todo_updated update1 cache0)) =
      map (fun t => if strict_eq (t !! "id") (Some (JStr "t1"))
                    then update2 ∪ (update1 ∪ t) else t) (todos cache0).
Proof.
  split; [reflexivity|]. split; [reflexivity|].
  apply (updated_twice_is_shallow_merge "t1" update1 update2 cache0); reflexivity.
Defined.

(** C5, the claim as stated fails: E2 carries no description, and the
    entry keeps the description that E1 brought; the final entry is a merge
    of E1 and E2, not E2. *)
Lemma updated_twice_keeps_earlier_field :
  todos (on_todo_updated update2 (on_todo_updated update1 cache0))
    = [ <["description" := JStr "due on Friday"]> update2 ]
  ∧ todos (on_todo_updated update2 (on_todo_updated update1 cache0)) ≠ [update2].
Proof.
  assert (todos (on_todo_updated update2 (on_todo_updated update1 cache0))
          = [ <["description" := JStr "due on Friday"]> update2 ]) as Heq
    by (by vm_compute).
  split; [exact Heq|]. rewrite Heq. intros Hbad.
  apply (f_equal (fun l : list JsObj =>
                    match l with
                    | [o] => o !! "description"
                    | _ => None
                    end)) in Hbad.
  vm_compute in Hbad. discriminate Hbad.
Qed.

End CacheFacts.

(** ** The client connection manager *)
Section ConnectionFacts.
Import SocketService Fixtures.

(** Once the retry budget is used up, further connection errors set no
    timer and change nothing. *)
Lemma connect_errors_exhausted (n : nat) (s : t) :
  maxReconnectAttempts s ≤ reconnectAttempts s →
  connect_errors n s = (s, []).
Proof.
  intros Hmax. induction n as [|n IH]; [reflexivity|].
  cbn [connect_errors]. unfold on_connect_error, handleReconnect.
  destruct (Z.ltb_spec (reconnectAttempts s) (maxReconnectAttempts s)); [lia|].
  by rewrite IH.
Qed.

Lemma connect_errors_add (a b : nat) (s : t) :
  connect_errors (a + b) s =
    ((connect_errors b (connect_errors a s).1).1,
     ((connect_errors a s).2 ++ (connect_errors b (connect_errors a s).1).2)%list).
Proof.
  revert s. induction a as [|a IH]; intros s.
  - cbn. by destruct (connect_errors b s).
  - cbn [Nat.add connect_errors].
    destruct (on_connect_error s) as [s1 effs]. rewrite IH.
    destruct (connect_errors a s1) as [s2 delays]. cbn [fst snd].
    destruct (connect_errors b s2) as [s3 more]. cbn [fst snd].
    by rewrite app_assoc.
Qed.

(** C6, as amended: after a connection error the client retries with
    exponential backoff whose [k]-th delay in a row is
    [min(1000 * 2^k, 30000)] milliseconds for [k = 1, 2, ...]: the delays
    are 2 s, 4 s, 8 s, 16 s and 30 s, doubling per attempt from a first
    delay of two seconds and capped at 30 s; after five attempts no
    further retry is scheduled. *)
Theorem reconnect_backoff_schedule (n : nat) :
  snd (connect_errors n initial) = retry_delay <$> seq 1 (n `min` 5)
  ∧ snd (connect_errors n initial) = take n [2000; 4000; 8000; 16000; 30000]
  ∧ (length (snd (connect_errors n initial)) ≤ 5)%nat.
Proof.
  assert (∀ m, snd (connect_errors (5 + m) initial)
               = [2000; 4000; 8000; 16000; 30000]) as Hfull.
  { intros m. rewrite connect_errors_add.
    rewrite (connect_errors_exhausted m) by (vm_compute; discriminate).
    reflexivity. }
  destruct (decide (n < 5)%nat) as [Hlt|Hge].
  - do 5 (destruct n as [|n]; [split; [by vm_compute|split; [by vm_compute|vm_compute; lia]]|]). lia.
  - replace n with (5 + (n - 5))%nat by lia. rewrite Hfull.
    replace ((5 + (n - 5)) `min` 5)%nat with 5%nat by lia.
    split; [by vm_compute|]. split; [|cbn; lia].
    by rewrite firstn_all2 by (cbn; lia).
Qed.

(** C6, the claim as stated fails: the first delay is two seconds, not
    one; the first three delays are 2 s, 4 s, 8 s. *)
Lemma first_retry_waits_two_seconds :
  snd (on_connect_error initial) = [SetTimeout 2000]
  ∧ snd (connect_errors 3 initial) = [2000; 4000; 8000]
  ∧ snd (connect_errors 3 initial) ≠ [1000; 2000; 4000].
Proof. split; [reflexivity|]. split; [reflexivity|]. discriminate. Qed.

(** C10: while the socket is null or not connected, each room and emit
    operation leaves the service unchanged and sends nothing; the event is
    not kept for later either, since what a later successful connection
    does is the same as if the operation had never been called. *)
Theorem disconnected_operation_is_noop (op : Op) (s : t) :
  socket_connected s = false →
  run op s = (s, [])
  ∧ (∀ user, on_connect user (run op s).1 = on_connect user s).
Proof.
  intros Hoff.
  assert (run op s = (s, [])) as Hrun.
  { destruct op; cbn;
      unfold joinUserRoom, joinTeamRoom, leaveTeamRoom, emitTodoCreated,
        emitTodoUpdated, emitTodoDeleted, emitCommentAdded, guarded_emit;
      by rewrite Hoff. }
  split; [exact Hrun|]. intros user. by rewrite Hrun.
Qed.

Lemma disconnected_operation_is_noop_witness :
  socket_connected initial = false
  ∧ run (OpEmitTodoCreated update1) initial = (initial, []).
Proof.
  split; [reflexivity|].
  apply (disconnected_operation_is_noop (OpEmitTodoCreated update1) initial).
  reflexivity.
Defined.

End ConnectionFacts.

(** ** The relay of the server *)
Section RelayFacts.
Import Relay Fixtures.

Lemma join_idempotent (sid room : string) (srv : Server) :
  join sid room (join sid room srv) = join sid room srv.
Proof.
  unfold join. destruct (srv !! sid) as [rooms|] eqn:Hsid.
  - rewrite lookup_insert_eq, insert_insert_eq. f_equal.
    by rewrite <- (assoc_L (∪)), (idemp_L (∪)).
  - by rewrite Hsid.
Qed.

Lemma joined_join (sid room : string) (srv : Server) :
  is_Some (srv !! sid) → joined sid room (join sid room srv).
Proof.
  intros [rooms Hsid]. unfold join, joined. rewrite Hsid.
  exists (rooms ∪ {[room]}). split; [apply lookup_insert_eq|].
  apply elem_of_union_r, elem_of_singleton. reflexivity.
Qed.

Lemma join_dom (sid room : string) (srv : Server) :
  dom (join sid room srv) = dom srv.
Proof.
  unfold join. destruct (srv !! sid) as [rooms|] eqn:Hsid; [|done].
  rewrite dom_insert_L. apply elem_of_dom_2 in Hsid.
  apply set_eq. intros x. rewrite elem_of_union, elem_of_singleton.
  split; [intros [->|]; done|by right].
Qed.

Lemma broadcast_emit_spec (sid : string) (msg : ServerMsg) (srv : Server) :
  NoDup (broadcast_emit sid msg srv)
  ∧ ∀ rcpt m, (rcpt, m) ∈ broadcast_emit sid msg srv
              ↔ m = msg ∧ rcpt ∈ dom srv ∧ rcpt ≠ sid.
Proof.
  unfold broadcast_emit. split.
  - apply NoDup_fmap_2; [|apply NoDup_elements].
    intros a b Hab. by injection Hab.
  - intros rcpt m. rewrite list_elem_of_fmap. split.
    + intros (r & Heq & Hin). injection Heq as -> ->.
      apply elem_of_elements, elem_of_difference in Hin as [Hin Hne].
      rewrite elem_of_singleton in Hne. done.
    + intros (-> & Hin & Hne). exists rcpt. split; [done|].
      apply elem_of_elements, elem_of_difference.
      by rewrite elem_of_singleton.
Qed.

(** C1, as amended: a relayed change event is sent, once each, to every
    connected session other than its sender, whatever rooms the sessions
    have joined: the sender never receives it, every other connected
    session always does, and a session that is not connected does not.
    Room membership plays no part, so joining a room again (or at all)
    changes neither the recipients nor the number of copies. *)
Theorem relay_reaches_every_other_session
  (sid : string) (msg : ClientMsg) (push : ServerMsg) (srv : Server) :
  is_Some (srv !! sid) →
  relayed msg = Some push →
  (on sid msg srv).1 = srv
  ∧ NoDup (on sid msg srv).2
  ∧ (∀ rcpt m, (rcpt, m) ∈ (on sid msg srv).2
               ↔ m = push ∧ rcpt ∈ dom srv ∧ rcpt ≠ sid)
  ∧ (∀ who room,
       (on sid msg (join who room (join who room srv))).2
         = (on sid msg (join who room srv)).2
       ∧ (on sid msg (join who room srv)).2 = (on sid msg srv).2).
Proof.
  intros [rooms Hsid] Hrel.
  assert (∀ srv', is_Some (srv' !! sid) →
                  on sid msg srv' = (srv', broadcast_emit sid push srv')) as Hon.
  { intros srv' [rs Hs]. unfold on. rewrite Hs.
    destruct msg; simpl in Hrel; try discriminate; by injection Hrel as <-. }
  assert (∀ who room srv', is_Some (srv' !! sid) →
                           is_Some (join who room srv' !! sid)) as Hkeep.
  { intros who room srv' Hs. apply elem_of_dom. rewrite join_dom.
    by apply elem_of_dom. }
  destruct (broadcast_emit_spec sid push srv) as [Hnd Hmem].
  rewrite Hon by eauto. cbn [fst snd].
  split; [done|]. split; [done|]. split; [done|].
  intros who room. rewrite !Hon by eauto. cbn [snd].
  unfold broadcast_emit. by rewrite !join_dom.
Qed.

Lemma relay_reaches_every_other_session_witness :
  is_Some (srv0 !! "A")
  ∧ relayed (todo_updated update1) = Some (push_todo_updated update1)
  ∧ (Relay.on "A" (todo_updated update1) srv0).1 = srv0.
Proof.
  assert (is_Some (srv0 !! "A")) as Hconn by (by vm_compute; eexists).
  split; [exact Hconn|]. split; [reflexivity|].
  apply (relay_reaches_every_other_session "A" (todo_updated update1)
           (push_todo_updated update1) srv0 Hconn eq_refl).
Defined.

(** C1, the claim as stated fails: session ["B"] has not joined the room
    ["user-1"] of the sender, and still receives the event. *)
Lemma relay_reaches_unjoined_session :
  joined "A" "user-1" srv0
  ∧ ¬ joined "B" "user-1" srv0
  ∧ (Relay.on "A" (todo_updated update1) srv0).2
      = [("B", push_todo_updated update1)].
Proof.
  split; [|split].
  - apply (bool_decide_unpack _). by vm_compute.
  - apply (bool_decide_eq_false_1 _). by vm_compute.
  - by vm_compute.
Qed.

(** C2, as amended: the server admits every connection, whatever its
    handshake carries, and an admitted session can join any user room and
    any team room; no credential is checked on the server.  Only the
    client holds back: without a token, [connect] opens no connection. *)
Theorem every_connection_admitted
  (sid : string) (hs : Handshake) (srv : Server) (userId teamId : string) :
  let srv1 := connection sid hs srv in
  sid ∈ dom srv1
  ∧ joined sid ("user-" +:+ userId) (on sid (join_user_room userId) srv1).1
  ∧ joined sid ("team-" +:+ teamId) (on sid (join_team_room teamId) srv1).1
  ∧ (∀ s, SocketService.connect None s = (s, []))
  ∧ (∀ s, SocketService.connect (Some "") s = (s, [])).
Proof.
  intros srv1.
  assert (srv1 !! sid = Some {[sid]}) as Hsid by apply lookup_insert_eq.
  split; [apply elem_of_dom; eauto|].
  split; [|split; [|split]].
  - unfold on. rewrite Hsid. apply joined_join. eauto.
  - unfold on. rewrite Hsid. apply joined_join. eauto.
  - intros s. unfold SocketService.connect.
    by destruct (SocketService.socket_connected s).
  - intros s. unfold SocketService.connect.
    by destruct (SocketService.socket_connected s).
Qed.

(** C2, the claim as stated fails: a connection that presents no token is
    admitted, and the session joins the room of user 42. *)
Lemma anonymous_session_admitted :
  is_Some (connection "B" {| auth := None |} ∅ !! "B")
  ∧ joined "B" "user-42"
      (on "B" (join_user_room "42") (connection "B" {| auth := None |} ∅)).1.
Proof.
  split.
  - by vm_compute; eexists.
  - apply (bool_decide_unpack _). by vm_compute.
Qed.

End RelayFacts.

(** ** The mutation routes *)
Section RouteFacts.
Import Todos Fixtures.
Variable schema : Schema.

(** *** No route emits a socket event *)

Lemma silent_ret {A} (a : A) : silent (mret a).
Proof. intros w. reflexivity. Qed.

Lemma silent_throw {A} : silent (@throw A).
Proof. intros w. reflexivity. Qed.

Lemma silent_get_db : silent get_db.
Proof. intros w. reflexivity. Qed.

Lemma silent_commit (operation : string) (db : DB) : silent (commit operation db).
Proof.
  intros w. unfold commit, emitted. cbn [snd trace].
  rewrite omap_app. cbn. apply app_nil_r.
Qed.

Lemma silent_bind {A B} (m : M A) (k : A → M B) :
  silent m → (∀ a, silent (k a)) → silent (m ≫= k).
Proof.
  intros Hm Hk w. unfold mbind, M_bind. specialize (Hm w).
  destruct (m w) as [[a|] w1]; cbn [snd] in *.
  - by rewrite (Hk a w1).
  - exact Hm.
Qed.

Lemma silent_try_catch {A} (m h : M A) :
  silent m → silent h → silent (try_catch m h).
Proof.
  intros Hm Hh w. unfold try_catch. specialize (Hm w).
  destruct (m w) as [[a|] w1]; cbn [snd] in *.
  - exact Hm.
  - by rewrite (Hh w1).
Qed.

Lemma answer_silent (handler : M Response) (fallback : Response) (w : World) :
  silent handler →
  emitted (trace (answer handler fallback w).2) = emitted (trace w).
Proof.
  intros Hh. unfold answer.
  pose proof (silent_try_catch handler (mret fallback) Hh (silent_ret fallback) w) as Hs.
  by destruct (try_catch handler (mret fallback) w) as [[r|] w1].
Qed.

Ltac silent_step :=
  first
    [ apply silent_ret | apply silent_throw | apply silent_get_db
    | apply silent_commit
    | apply silent_bind; [|intros ?]
    | match goal with
      | |- silent (match ?x with _ => _ end) => destruct x
      | |- silent (if ?x then _ else _) => destruct x
      end ].
Ltac silent := cbv zeta; repeat silent_step.

Lemma silent_todo_findFirst id user : silent (todo_findFirst id user).
Proof. unfold todo_findFirst. silent. Qed.

Lemma silent_todo_create data : silent (todo_create schema data).
Proof. unfold todo_create. silent. Qed.

Lemma silent_todoCategory_deleteMany tid : silent (todoCategory_deleteMany tid).
Proof. unfold todoCategory_deleteMany. silent. Qed.

Lemma silent_todo_update id data : silent (todo_update schema id data).
Proof. unfold todo_update. silent. Qed.

Lemma silent_todo_delete id : silent (todo_delete id).
Proof. unfold todo_delete. silent. Qed.

Lemma silent_subtask_create ttl tid : silent (subtask_create schema ttl tid).
Proof. unfold subtask_create. silent. Qed.

Lemma silent_subtask_findFirst id user : silent (subtask_findFirst id user).
Proof. unfold subtask_findFirst. silent. Qed.

Lemma silent_subtask_update id ttl completed : silent (subtask_update id ttl completed).
Proof. unfold subtask_update. silent. Qed.

Lemma silent_subtask_delete id : silent (subtask_delete id).
Proof. unfold subtask_delete. silent. Qed.

Lemma silent_comment_create content tid user :
  silent (comment_create schema content tid user).
Proof. unfold comment_create. silent. Qed.

Ltac silent_route :=
  apply answer_silent; cbv zeta;
  repeat first
    [ apply silent_todo_findFirst | apply silent_todo_create
    | apply silent_todoCategory_deleteMany | apply silent_todo_update
    | apply silent_todo_delete | apply silent_subtask_create
    | apply silent_subtask_findFirst | apply silent_subtask_update
    | apply silent_subtask_delete | apply silent_comment_create
    | silent_step ].

(** C3, as amended: no mutation route emits a ChangeEvent, whether the
    mutation succeeds or fails; creating, updating and deleting a todo, a
    subtask or a comment only writes to storage and answers the request, so
    the socket events of the trace are the same before and after. *)
Theorem routes_emit_nothing (user : string) (req : Mutation) (w : World) :
  emitted (trace (serve schema user req w).2) = emitted (trace w).
Proof.
  destruct req; cbn [serve];
    [ unfold createTodo | unfold updateTodo | unfold deleteTodo
    | unfold createSubtask | unfold updateSubtask | unfold deleteSubtask
    | unfold addComment ]; silent_route.
Qed.

(** *** Association rows *)

Lemma categoryIds_of_rows (tid : string) (db : DB) :
  categoryIds_of tid db = snd <$> filter (fun r => r.1 = tid) (todoCategory db).
Proof. reflexivity. Qed.

Lemma filter_rows_of_removed (tid : string) (rows : list (string * string)) :
  filter (fun r => r.1 = tid) (filter (fun r : string * string => r.1 ≠ tid) rows) = [].
Proof.
  induction rows as [|r rows IH]; [reflexivity|].
  rewrite (filter_cons (fun r : string * string => r.1 ≠ tid)).
  destruct (decide (r.1 ≠ tid)) as [Hne|Heq]; [|exact IH].
  rewrite filter_cons. by destruct (decide (r.1 = tid)).
Qed.

Lemma filter_rows_of_other (tid other : string) (rows : list (string * string)) :
  other ≠ tid →
  filter (fun r => r.1 = other) (filter (fun r : string * string => r.1 ≠ tid) rows)
  = filter (fun r => r.1 = other) rows.
Proof.
  intros Hne. induction rows as [|r rows IH]; [reflexivity|].
  rewrite (filter_cons (fun r : string * string => r.1 ≠ tid)).
  destruct (decide (r.1 ≠ tid)) as [Hr|Hr].
  - rewrite !filter_cons. destruct (decide (r.1 = other)); by rewrite IH.
  - apply dec_stable in Hr. rewrite IH, filter_cons.
    destruct (decide (r.1 = other)); [|done]. congruence.
Qed.

Lemma filter_link_rows (tid other : string) (cids : list string) :
  filter (fun r => r.1 = other) (link_rows tid cids)
  = if decide (tid = other) then link_rows tid cids else [].
Proof.
  unfold link_rows. induction cids as [|cid cids IH].
  - by destruct (decide (tid = other)).
  - rewrite fmap_cons, filter_cons, IH. cbn [fst].
    by destruct (decide (tid = other)).
Qed.

Lemma snd_link_rows (tid : string) (cids : list string) :
  snd <$> link_rows tid cids = cids.
Proof.
  unfold link_rows. induction cids as [|cid cids IH]; [reflexivity|].
  rewrite !fmap_cons, IH. reflexivity.
Qed.

(** *** The create route, step by step *)

Lemma createTodo_invalid (user : string) (body : TodoBody) (w : World) :
  create_errors schema body ≠ [] →
  createTodo schema user body w
  = (Failure 400 "Validation failed" (create_errors schema body), w).
Proof.
  intros Herr. unfold createTodo, answer, try_catch. cbv zeta.
  by rewrite bool_decide_eq_false_2.
Qed.

Lemma title_in_create_errors (body : TodoBody) :
  notEmpty (b_title body) = false → "title" ∈ create_errors schema body.
Proof.
  intros Hno. unfold create_errors. rewrite Hno. cbn [fails].
  apply list_elem_of_here.
Qed.

Lemma create_errors_nil (body : TodoBody) :
  create_errors schema body = [] ↔
    notEmpty (b_title body) = true
    ∧ optional (isIn priorities) (b_priority body) = true
    ∧ optional (iso8601 schema) (b_dueDate body) = true.
Proof.
  unfold create_errors, fails.
  destruct (notEmpty _), (optional (isIn _) _), (optional (iso8601 _) _);
    cbn; split; try done; intros (? & ? & ?); done.
Qed.

(** The [data] that the create route hands to the storage layer. *)
Lemma createTodo_valid (user : string) (body : TodoBody) (w : World) :
  create_errors schema body = [] →
  createTodo schema user body w =
    match
      todo_create schema
        {| c_title := b_title body;
           c_description := b_description body;
           c_priority := or_else (b_priority body) "MEDIUM";
           c_dueDate := if truthy (b_dueDate body) then b_dueDate body else None;
           c_userId := user;
           c_categories := match b_categoryIds body with
                           | Some (cid :: rest) => Some (cid :: rest)
                           | _ => None
                           end |} w
    with
    | (Returned t, w') => (Success 201 (PTodo t), w')
    | (Threw, w') => (Failure 500 "Failed to create todo" [], w')
    end.
Proof.
  intros Herr. unfold createTodo, answer, try_catch. cbv zeta.
  rewrite bool_decide_eq_true_2 by done. cbn [negb].
  unfold mbind, M_bind at 1.
  by destruct (todo_create _ _ w) as [[t|] w'].
Qed.

(** What the storage layer returns for a create, when it returns. *)
Lemma todo_create_returned (data : TodoCreateInput) (w w' : World) (tv : TodoView) :
  todo_create schema data w = (Returned tv, w') →
  let id := new_id schema (store w) in
  let links := default [] (c_categories data) in
  c_title data = Some (title (row tv))
  ∧ todo_id (row tv) = id
  ∧ priority (row tv) = c_priority data
  ∧ status (row tv) = default_status schema
  ∧ userId (row tv) = c_userId data
  ∧ todo (store w) !! id = None
  ∧ link_ok schema (store w) id links = true
  ∧ todo (store w') = <[id := row tv]> (todo (store w))
  ∧ todoCategory (store w') = (todoCategory (store w) ++ link_rows id links)%list
  ∧ trace w' = (trace w ++ [Commit "todo.create"])%list.
Proof.
  unfold todo_create, mbind, M_bind, get_db. cbv zeta.
  destruct (c_title data) as [ttl|]; [|discriminate].
  destruct (decide (is_Some (todo (store w) !! new_id schema (store w)))) as [Hs|Hn];
    [discriminate|].
  destruct (link_ok schema (store w) _ _) eqn:Hlink; cbn [negb]; [|discriminate].
  unfold commit, mret, M_ret. intros Heq. injection Heq as <- <-.
  cbn. repeat split; try done.
  by apply eq_None_not_Some.
Qed.

Lemma todo_create_accepts (data : TodoCreateInput) (w : World) (ttl : string) :
  c_title data = Some ttl →
  todo (store w) !! new_id schema (store w) = None →
  link_ok schema (store w) (new_id schema (store w)) (default [] (c_categories data)) = true →
  ∃ tv w', todo_create schema data w = (Returned tv, w').
Proof.
  intros Httl Hfresh Hlink.
  unfold todo_create, mbind, M_bind, get_db. cbv zeta. rewrite Httl.
  destruct (decide (is_Some _)) as [Hs|Hn].
  { rewrite Hfresh in Hs. by destruct Hs. }
  rewrite Hlink. cbn [negb]. unfold commit, mret, M_ret. eauto.
Qed.

Lemma todo_create_rejects (data : TodoCreateInput) (w : World) :
  link_ok schema (store w) (new_id schema (store w)) (default [] (c_categories data)) = false →
  todo_create schema data w = (Threw, w).
Proof.
  intros Hlink.
  unfold todo_create, mbind, M_bind, get_db. cbv zeta.
  destruct (c_title data); [|reflexivity].
  destruct (decide (is_Some _)); [reflexivity|].
  by rewrite Hlink.
Qed.

Lemma created_links (body : TodoBody) :
  default [] (match b_categoryIds body with
              | Some (cid :: rest) => Some (cid :: rest)
              | _ => None
              end)
  = default [] (b_categoryIds body).
Proof. by destruct (b_categoryIds body) as [[|cid rest]|]. Qed.

(** C9: a create request without a title, or with an empty one, is answered
    400 "Validation failed" with the title among the failed fields, and
    nothing is written; every todo the create route returns has status TODO
    (the column default) and, when the request names no priority, priority
    MEDIUM; and a request with a non-empty title and no priority, whose other
    fields pass validation and whose rows the storage layer accepts, does
    return such a todo, with status 201, and stores it. *)
Theorem createTodo_defaults (user : string) (body : TodoBody) (w : World) :
  default_status schema = "TODO" →
  (notEmpty (b_title body) = false →
     ∃ details,
       createTodo schema user body w = (Failure 400 "Validation failed" details, w)
       ∧ "title" ∈ details)
  ∧ (∀ code t w',
       createTodo schema user body w = (Success code (PTodo t), w') →
       code = 201
       ∧ notEmpty (b_title body) = true
       ∧ status (row t) = "TODO"
       ∧ (b_priority body = None → priority (row t) = "MEDIUM")
       ∧ todo (store w') !! todo_id (row t) = Some (row t))
  ∧ (notEmpty (b_title body) = true →
     b_priority body = None →
     optional (iso8601 schema) (b_dueDate body) = true →
     todo (store w) !! new_id schema (store w) = None →
     link_ok schema (store w) (new_id schema (store w))
       (default [] (b_categoryIds body)) = true →
     ∃ t w',
       createTodo schema user body w = (Success 201 (PTodo t), w')
       ∧ b_title body = Some (title (row t))
       ∧ priority (row t) = "MEDIUM"
       ∧ status (row t) = "TODO"
       ∧ userId (row t) = user
       ∧ todo (store w') !! todo_id (row t) = Some (row t)).
Proof.
  intros Hdefault.
  assert (∀ code t w',
            createTodo schema user body w = (Success code (PTodo t), w') →
            code = 201
            ∧ notEmpty (b_title body) = true
            ∧ b_title body = Some (title (row t))
            ∧ status (row t) = "TODO"
            ∧ priority (row t) = or_else (b_priority body) "MEDIUM"
            ∧ userId (row t) = user
            ∧ todo (store w') !! todo_id (row t) = Some (row t)) as Hreturned.
  { intros code t w' Hrun.
    destruct (decide (create_errors schema body = [])) as [Hok|Hbad].
    - rewrite createTodo_valid in Hrun by done.
      destruct (todo_create schema _ w) as [[tv|] w1] eqn:Hcreate; [|discriminate].
      injection Hrun as <- <- <-.
      apply todo_create_returned in Hcreate. cbv zeta in Hcreate.
      destruct Hcreate as (Httl & Hid & Hprio & Hstatus & Huser & _ & _ & Htodo & _).
      cbn in Httl, Hprio, Huser.
      apply create_errors_nil in Hok as (Hne & _).
      repeat split; try done.
      + by rewrite Hstatus.
      + by rewrite Htodo, Hid, lookup_insert_eq.
    - rewrite createTodo_invalid in Hrun by done. discriminate. }
  split; [|split].
  - intros Hno. exists (create_errors schema body).
    split; [|by apply title_in_create_errors].
    apply createTodo_invalid. intros Hnil.
    apply create_errors_nil in Hnil as (Hne & _). congruence.
  - intros code t w' Hrun.
    destruct (Hreturned code t w' Hrun) as (-> & Hne & _ & Hst & Hprio & _ & Hstored).
    repeat split; try done. intros Hnone. by rewrite Hprio, Hnone.
  - intros Hne Hprio Hdate Hfresh Hlink.
    assert (create_errors schema body = []) as Hok.
    { apply create_errors_nil. by rewrite Hprio. }
    destruct (b_title body) as [ttl|] eqn:Httl; [|discriminate].
    destruct (todo_create_accepts
                {| c_title := Some ttl;
                   c_description := b_description body;
                   c_priority := or_else (b_priority body) "MEDIUM";
                   c_dueDate := if truthy (b_dueDate body) then b_dueDate body else None;
                   c_userId := user;
                   c_categories := match b_categoryIds body with
                                   | Some (cid :: rest) => Some (cid :: rest)
                                   | _ => None
                                   end |} w ttl eq_refl Hfresh)
      as (tv & w' & Hcreate).
    { cbn [c_categories]. by rewrite created_links. }
    assert (createTodo schema user body w = (Success 201 (PTodo tv), w')) as Hrun.
    { rewrite createTodo_valid by done. by rewrite Httl, Hcreate. }
    exists tv, w'. split; [exact Hrun|].
    destruct (Hreturned _ _ _ Hrun) as (_ & _ & Ht & Hst & Hp & Hu & Hstored).
    rewrite Hprio in Hp. by rewrite <- Ht.
Qed.

(** What the create route does with [categoryIds] in general, which is the
    defect that C8 reports: it does not look at who owns the referenced
    categories and never answers 404.  For a request that passes validation,
    when the storage layer accepts the association rows the todo is created
    (201) with exactly the referenced categories attached, as given; when it
    rejects them the answer is 500 and nothing is created. *)
Theorem createTodo_attaches_referenced_categories
  (user : string) (body : TodoBody) (w : World) :
  let id := new_id schema (store w) in
  let cids := default [] (b_categoryIds body) in
  let r := createTodo schema user body w in
  status_code r.1 ≠ 404
  ∧ (create_errors schema body = [] →
     todo (store w) !! id = None →
     (link_ok schema (store w) id cids = true →
        status_code r.1 = 201
        ∧ is_Some (todo (store r.2) !! id)
        ∧ categoryIds_of id (store r.2) = (categoryIds_of id (store w) ++ cids)%list)
     ∧ (link_ok schema (store w) id cids = false →
        r = (Failure 500 "Failed to create todo" [], w))).
Proof.
  intros id cids r. split.
  { subst r. destruct (decide (create_errors schema body = [])) as [Hok|Hbad].
    - rewrite createTodo_valid by done.
      by destruct (todo_create schema _ w) as [[tv|] w1].
    - by rewrite createTodo_invalid. }
  intros Hok Hfresh. split.
  - intros Hlink. subst r. rewrite createTodo_valid by done.
    pose proof (proj1 (create_errors_nil body) Hok) as (Hne & _).
    destruct (b_title body) as [ttl|] eqn:Httl; [|discriminate].
    destruct (todo_create schema _ w) as [[tv|] w1] eqn:Hcreate.
    + apply todo_create_returned in Hcreate. cbv zeta in Hcreate.
      destruct Hcreate as (_ & _ & _ & _ & _ & _ & _ & Htodo & Hrows & _).
      cbn [fst snd status_code c_categories] in *.
      rewrite created_links in Hrows. fold id cids in Htodo, Hrows.
      split; [done|]. split.
      * rewrite Htodo, lookup_insert_eq. eauto.
      * rewrite !categoryIds_of_rows, Hrows, filter_app, fmap_app, filter_link_rows.
        rewrite decide_True by done. by rewrite snd_link_rows.
    + exfalso.
      destruct (todo_create_accepts
                  {| c_title := Some ttl;
                     c_description := b_description body;
                     c_priority := or_else (b_priority body) "MEDIUM";
                     c_dueDate := if truthy (b_dueDate body) then b_dueDate body else None;
                     c_userId := user;
                     c_categories := match b_categoryIds body with
                                     | Some (cid :: rest) => Some (cid :: rest)
                                     | _ => None
                                     end |} w ttl eq_refl Hfresh)
        as (tv & w' & Hyes).
      { cbn [c_categories]. by rewrite created_links. }
      congruence.
  - intros Hlink. subst r. rewrite createTodo_valid by done.
    rewrite todo_create_rejects; [done|].
    cbn [c_categories]. by rewrite created_links.
Qed.

(** *** The update route, step by step *)

Lemma update_errors_nil (body : TodoBody) :
  update_errors schema body = [] ↔
    optional notEmpty (b_title body) = true
    ∧ optional (isIn priorities) (b_priority body) = true
    ∧ optional (isIn statuses) (b_status body) = true
    ∧ optional (iso8601 schema) (b_dueDate body) = true.
Proof.
  unfold update_errors, fails.
  destruct (optional notEmpty _), (optional (isIn priorities) _),
    (optional (isIn statuses) _), (optional (iso8601 _) _);
    cbn; split; try done; intros (? & ? & ? & ?); done.
Qed.

(** An update that replaces the categories of an owned todo runs two writes:
    the deletion of the old rows, which commits, and then the update with the
    new rows, which the storage layer accepts or rejects. *)
Lemma updateTodo_replacing
  (user id : string) (body : TodoBody) (w : World) (cids : list string) (t : Todo) :
  update_errors schema body = [] →
  b_categoryIds body = Some cids →
  todo (store w) !! id = Some t →
  userId t = user →
  let db1 := with_todoCategory (filter (fun r => r.1 ≠ id)) (store w) in
  let w1 := {| store := db1;
               trace := (trace w ++ [Commit "todoCategory.deleteMany"])%list |} in
  let t' := apply_update (update_fields body) t in
  let db2 := with_todoCategory (fun rows => (rows ++ link_rows id cids)%list)
               (with_todo (insert id t') db1) in
  updateTodo schema user id body w =
    if link_ok schema db1 id cids
    then (Success 200 (PTodo (view db2 t')),
          {| store := db2; trace := (trace w1 ++ [Commit "todo.update"])%list |})
    else (Failure 500 "Failed to update todo" [], w1).
Proof.
  intros Hok Hcids Hfound Hown. cbv zeta.
  unfold updateTodo, answer, try_catch. cbv zeta.
  rewrite bool_decide_eq_true_2 by done. cbn [negb].
  unfold todo_findFirst, todoCategory_deleteMany, todo_update,
    mbind, M_bind, mret, M_ret, get_db, commit.
  rewrite Hfound, decide_True by done. rewrite Hcids.
  cbn [store with_todoCategory with_todo todo]. rewrite Hfound.
  destruct cids as [|cid rest]; cbn [u_categories default];
    destruct (link_ok schema _ id _); reflexivity.
Qed.

(** C7, as amended: replacing the category list in the update route is two
    writes, not one.  The old associations are deleted first, in a write of
    their own; if the update that follows succeeds, the todo holds exactly
    the new associations; if it fails, the answer is 500 and the todo is left
    with no association at all, the deletion having committed already.  The
    associations of other todos are untouched either way. *)
Theorem updateTodo_category_replacement
  (user id : string) (body : TodoBody) (w : World) (cids : list string) (t : Todo) :
  update_errors schema body = [] →
  b_categoryIds body = Some cids →
  todo (store w) !! id = Some t →
  userId t = user →
  let db1 := with_todoCategory (filter (fun r => r.1 ≠ id)) (store w) in
  let r := updateTodo schema user id body w in
  (link_ok schema db1 id cids = true →
     status_code r.1 = 200
     ∧ categoryIds_of id (store r.2) = cids
     ∧ trace r.2 = (trace w ++ [Commit "todoCategory.deleteMany"; Commit "todo.update"])%list)
  ∧ (link_ok schema db1 id cids = false →
     r.1 = Failure 500 "Failed to update todo" []
     ∧ store r.2 = db1
     ∧ categoryIds_of id (store r.2) = []
     ∧ trace r.2 = (trace w ++ [Commit "todoCategory.deleteMany"])%list)
  ∧ (∀ other, other ≠ id →
       categoryIds_of other (store r.2) = categoryIds_of other (store w)).
Proof.
  intros Hok Hcids Hfound Hown db1 r.
  pose proof (updateTodo_replacing user id body w cids t Hok Hcids Hfound Hown) as Hrun.
  cbv zeta in Hrun. fold db1 in Hrun. subst r. rewrite Hrun. clear Hrun.
  assert (categoryIds_of id db1 = []) as Hgone.
  { subst db1. rewrite categoryIds_of_rows. cbn [todoCategory with_todoCategory].
    by rewrite filter_rows_of_removed. }
  assert (∀ other, other ≠ id → categoryIds_of other db1 = categoryIds_of other (store w))
    as Hkept.
  { intros other Hne. subst db1. rewrite !categoryIds_of_rows.
    cbn [todoCategory with_todoCategory]. by rewrite filter_rows_of_other. }
  split; [|split].
  - intros ->. cbn [fst snd status_code store trace]. split; [done|]. split.
    + rewrite categoryIds_of_rows. cbn [todoCategory with_todoCategory with_todo].
      rewrite filter_app, fmap_app, filter_link_rows, decide_True by done.
      rewrite categoryIds_of_rows in Hgone. rewrite Hgone, snd_link_rows. reflexivity.
    + by rewrite <- app_assoc.
  - intros ->. cbn [fst snd store trace]. done.
  - intros other Hne. destruct (link_ok schema db1 id cids); cbn [snd store].
    + rewrite <- (Hkept other Hne). rewrite !categoryIds_of_rows.
      cbn [todoCategory with_todoCategory with_todo].
      rewrite filter_app, fmap_app, filter_link_rows, decide_False by done.
      by rewrite app_nil_r.
    + by apply Hkept.
Qed.

End RouteFacts.

(** ** The routes on concrete requests *)
Section RouteExamples.
Import Todos Fixtures.

(** C3, the claim as stated fails: a create request that succeeds, with
    status 201 and one committed write, emits no ChangeEvent at all. *)
Lemma successful_create_emits_no_event :
  status_code (createTodo relational "alice" buy_milk w0).1 = 201
  ∧ trace (createTodo relational "alice" buy_milk w0).2 = [Commit "todo.create"]
  ∧ length (emitted (trace (createTodo relational "alice" buy_milk w0).2)) ≠ 1%nat.
Proof. split; [by vm_compute|]. split; [by vm_compute|]. by vm_compute. Qed.

(** C7, the claim as stated fails: alice's todo ["t1"] is in category
    ["cat-1"]; an update that names a category that does not exist is
    answered 500 and leaves the todo with no category: the old association
    is gone and the new one was not created. *)
Lemma failed_replacement_drops_categories :
  categoryIds_of "t1" (store w0) = ["cat-1"]
  ∧ (updateTodo relational "alice" "t1" (recategorise ["ghost"]) w0).1
      = Failure 500 "Failed to update todo" []
  ∧ categoryIds_of "t1"
      (store (updateTodo relational "alice" "t1" (recategorise ["ghost"]) w0).2) = [].
Proof. split; [by vm_compute|]. split; by vm_compute. Qed.

Lemma updateTodo_category_replacement_witness :
  update_errors relational (recategorise ["cat-9"]) = []
  ∧ b_categoryIds (recategorise ["cat-9"]) = Some ["cat-9"]
  ∧ categoryIds_of "t1"
      (store (updateTodo relational "alice" "t1" (recategorise ["cat-9"]) w0).2)
    = ["cat-9"].
Proof.
  split; [reflexivity|]. split; [reflexivity|].
  refine (proj1 (proj2 (proj1
    (updateTodo_category_replacement relational "alice" "t1"
       (recategorise ["cat-9"]) w0 ["cat-9"]
       {| todo_id := "t1"; title := "Write report"; description := None;
          priority := "HIGH"; status := "TODO"; dueDate := None;
          userId := "alice" |}
       eq_refl eq_refl _ eq_refl) _))).
  - by vm_compute.
  - by vm_compute.
Defined.

(** C8, which the code breaks: createTodo must fail with NotFoundError when
    a referenced category does not belong to the requester, and attach no
    category of another user.  Every other identifier that a request names
    is looked up together with its owner; the category identifiers of the
    create route are not.  Alice creates a todo that names bob's category
    ["cat-9"]: the answer is 201, not 404, bob's category is attached to her
    todo, and the answer hands bob's category row to her. *)
Lemma foreign_category_is_attached :
  cat_userId <$> category db0 !! "cat-9" = Some "bob"
  ∧ status_code (createTodo relational "alice" with_bobs_category w0).1 = 201
  ∧ categoryIds_of "row-1"
      (store (createTodo relational "alice" with_bobs_category w0).2) = ["cat-9"]
  ∧ userId <$> todo (store (createTodo relational "alice" with_bobs_category w0).2)
                 !! "row-1" = Some "alice"
  ∧ match (createTodo relational "alice" with_bobs_category w0).1 with
    | Success _ (PTodo answer) =>
        categories answer
        = [Some {| cat_id := "cat-9"; cat_name := "Private"; cat_userId := "bob" |}]
    | _ => False
    end.
Proof.
  split; [by vm_compute|]. split; [by vm_compute|]. split; [by vm_compute|].
  split; by vm_compute.
Qed.

Lemma createTodo_attaches_referenced_categories_witness :
  create_errors relational with_bobs_category = []
  ∧ todo (store w0) !! new_id relational (store w0) = None
  ∧ link_ok relational (store w0) (new_id relational (store w0)) ["cat-9"] = true
  ∧ categoryIds_of (new_id relational (store w0))
      (store (createTodo relational "alice" with_bobs_category w0).2) = ["cat-9"].
Proof.
  split; [reflexivity|]. split; [by vm_compute|]. split; [by vm_compute|].
  refine (proj2 (proj2 (proj1 (proj2
    (createTodo_attaches_referenced_categories relational "alice"
       with_bobs_category w0) eq_refl _) _))).
  - by vm_compute.
  - by vm_compute.
Defined.

Lemma createTodo_defaults_witness :
  default_status relational = "TODO"
  ∧ ∃ t w',
      createTodo relational "alice" buy_milk w0 = (Success 201 (PTodo t), w')
      ∧ priority (row t) = "MEDIUM"
      ∧ status (row t) = "TODO".
Proof.
  split; [reflexivity|].
  destruct (proj2 (proj2 (createTodo_defaults relational "alice" buy_milk w0 eq_refl)))
    as (t & w' & Hrun & _ & Hprio & Hstatus & _).
  - reflexivity.
  - reflexivity.
  - reflexivity.
  - by vm_compute.
  - by vm_compute.
  - exists t, w'. repeat split; assumption.
Defined.

End RouteExamples.

(** * Further properties of the modelled code *)

#[local] Set Warnings "-clear-no-such-hyp".

(** ** The client cache: deletion, unknown identifiers, order of events *)
Section CacheExtras.
Import Store StoreActions Fixtures.

Lemma strict_eq_eq (a b : option JsVal) : strict_eq a b = true → a = b.
Proof.
  destruct a as [[| x | x | x | x | x]|], b as [[| y | y | y | y | y]|];
    cbn; try discriminate; try reflexivity; intros Heq.
  - apply Bool.eqb_prop in Heq. by subst.
  - apply Z.eqb_eq in Heq. by subst.
  - apply String.eqb_eq in Heq. by subst.
Qed.

Lemma strict_eq_string (x : option JsVal) (i : string) :
  strict_eq x (Some (JStr i)) = true ↔ x = Some (JStr i).
Proof.
  split; [apply strict_eq_eq|]. intros ->. cbn. apply String.eqb_refl.
Qed.

Lemma strict_eq_refl_of (a b : option JsVal) :
  strict_eq a b = true → strict_eq b b = true.
Proof.
  intros Heq. pose proof (strict_eq_eq a b Heq) as ->.
  exact Heq.
Qed.

(** An entry that an [updated] event matches keeps its identifier. *)
Lemma spread_keeps_id (t E : JsObj) :
  strict_eq (t !! "id") (E !! "id") = true →
  spread t E !! "id" = t !! "id".
Proof.
  intros Heq. apply strict_eq_eq in Heq. rewrite spread_lookup.
  by destruct (E !! "id").
Qed.

Lemma filter_keeps_all {A} (P : A → Prop) `{!∀ x, Decision (P x)} (l : list A) :
  Forall P l → filter P l = l.
Proof.
  induction 1 as [|x l Hx Hl IH]; [reflexivity|].
  by rewrite filter_cons_True, IH.
Qed.

Lemma set_todos_same (st : TodoState) : set_todos (todos st) st = st.
Proof. by destruct st. Qed.

Lemma cached_false (id : option JsVal) (st : TodoState) :
  cached id st = false ↔ ∀ t, t ∈ todos st → strict_eq (t !! "id") id = false.
Proof.
  unfold cached. induction (todos st) as [|t l IH]; cbn.
  - split; [|done]. intros _ t Hin. by apply elem_of_nil in Hin.
  - rewrite orb_false_iff, IH. split.
    + intros [Ht Hl] u Hin. apply elem_of_cons in Hin as [->|Hin]; auto.
    + intros Hall. split; [apply Hall; left|].
      intros u Hin. apply Hall. by right.
Qed.

(** A [deleted] event removes exactly the cached entries with its
    identifier and keeps the others in their order; when no entry has the
    identifier the cache is unchanged; nothing else of the store changes. *)
Theorem deleted_removes_exactly_that_entity (i : string) (st : TodoState) :
  (∀ t, t ∈ todos (on_todo_deleted i st)
        ↔ t ∈ todos st ∧ t !! "id" ≠ Some (JStr i))
  ∧ todos (on_todo_deleted i st) `sublist_of` todos st
  ∧ cached (Some (JStr i)) (on_todo_deleted i st) = false
  ∧ (cached (Some (JStr i)) st = false ↔ on_todo_deleted i st = st)
  ∧ categories (on_todo_deleted i st) = categories st
  ∧ filters (on_todo_deleted i st) = filters st.
Proof.
  unfold on_todo_deleted, removeTodo. cbn [todos set_todos categories filters].
  assert (∀ t : JsObj, negb (strict_eq (t !! "id") (Some (JStr i))) = true
                       ↔ t !! "id" ≠ Some (JStr i)) as Hkeep.
  { intros t. rewrite negb_true_iff, <- not_true_iff_false.
    by rewrite strict_eq_string. }
  split; [|split; [|split; [|split]]]; try done.
  - intros t. rewrite list_elem_of_filter, Hkeep. tauto.
  - apply sublist_filter.
  - apply cached_false. cbn [todos]. intros t Hin.
    apply list_elem_of_filter in Hin as [Hne _].
    by apply negb_true_iff in Hne.
  - split.
    + intros Hno. rewrite filter_keeps_all; [apply set_todos_same|].
      apply Forall_forall. intros t Hin.
      apply negb_true_iff. by apply (proj1 (cached_false _ st) Hno).
    + intros Heq. apply cached_false. intros t Hin.
      apply (f_equal todos) in Heq. cbn [todos] in Heq.
      rewrite <- Heq in Hin. apply list_elem_of_filter in Hin as [Hne _].
      by apply negb_true_iff in Hne.
Qed.

(** An [updated] event never adds or removes an entry and keeps the
    identifier of every entry; for an identifier that is not cached it
    changes nothing at all. *)
Theorem updated_unknown_is_ignored (E : JsObj) (st : TodoState) :
  length (todos (on_todo_updated E st)) = length (todos st)
  ∧ (λ t : JsObj, t !! "id") <$> todos (on_todo_updated E st)
      = (λ t : JsObj, t !! "id") <$> todos st
  ∧ (cached (E !! "id") st = false → on_todo_updated E st = st).
Proof.
  rewrite on_todo_updated_todos. split; [apply length_map|]. split.
  - change (map ?f ?l) with (f <$> l). rewrite <- list_fmap_compose.
    apply list_fmap_ext. intros _ t _. cbn.
    destruct (strict_eq (t !! "id") (E !! "id")) eqn:Hid; [|done].
    by apply spread_keeps_id.
  - intros Hno. unfold on_todo_updated, updateTodo.
    assert (map (λ todo : JsObj,
                   if strict_eq (todo !! "id") (E !! "id")
                   then spread todo E else todo) (todos st) = todos st) as ->;
      [|apply set_todos_same].
    rewrite <- (map_id (todos st)) at 2. apply map_ext_in. intros t Hin.
    apply list_elem_of_In in Hin.
    by rewrite (proj1 (cached_false _ st) Hno t Hin).
Qed.

Lemma updated_unknown_is_ignored_witness :
  cached (Some (JStr "t7")) cache0 = false
  ∧ on_todo_updated {[ "id" := JStr "t7"; "title" := JStr "Other" ]} cache0 = cache0.
Proof.
  split; [by vm_compute|].
  apply (updated_unknown_is_ignored
           {[ "id" := JStr "t7"; "title" := JStr "Other" ]} cache0).
  by vm_compute.
Defined.

(** Delivering the same [updated] event twice leaves the cache as
    delivering it once. *)
Theorem updated_duplicate_is_idempotent (E : JsObj) (st : TodoState) :
  on_todo_updated E (on_todo_updated E st) = on_todo_updated E st.
Proof.
  destruct st as [l c b e f].
  unfold on_todo_updated, updateTodo, set_todos. cbn. f_equal.
  rewrite map_map. apply map_ext. intros t.
  destruct (strict_eq (t !! "id") (E !! "id")) eqn:Hid.
  - rewrite (spread_keeps_id t E Hid), Hid.
    unfold spread. by rewrite (assoc_L (∪)), (idemp_L (∪)).
  - by rewrite Hid.
Qed.

(** A [created] event followed by a [deleted] event for its identifier
    leaves the cache as the [deleted] event alone would. *)
Theorem created_then_deleted_cancels (i : string) (todo : JsObj) (st : TodoState) :
  todo !! "id" = Some (JStr i) →
  on_todo_deleted i (on_todo_created todo st) = on_todo_deleted i st.
Proof.
  intros Hid. destruct st as [l c b e f].
  unfold on_todo_deleted, on_todo_created, removeTodo, addTodo, set_todos.
  cbn [todos categories isLoading error filters]. f_equal.
  apply filter_cons_False.
  rewrite Hid. cbn. by rewrite String.eqb_refl.
Qed.

Lemma created_then_deleted_cancels_witness :
  cached_todo !! "id" = Some (JStr "t1")
  ∧ on_todo_deleted "t1" (on_todo_created cached_todo cache0) = on_todo_deleted "t1" cache0.
Proof.
  split; [reflexivity|].
  apply (created_then_deleted_cancels "t1" cached_todo cache0). reflexivity.
Defined.

(** A [deleted] event and an [updated] event can be applied in either
    order, whatever their identifiers: the resulting cache is the same. *)
Theorem deleted_commutes_with_updated (i : string) (E : JsObj) (st : TodoState) :
  on_todo_deleted i (on_todo_updated E st) = on_todo_updated E (on_todo_deleted i st).
Proof.
  destruct st as [l c b e f].
  unfold on_todo_deleted, on_todo_updated, removeTodo, updateTodo, set_todos.
  cbn [todos categories isLoading error filters]. f_equal.
  induction l as [|t l IH]; [reflexivity|].
  cbn [map]. rewrite !filter_cons.
  assert ((if strict_eq (t !! "id") (E !! "id") then spread t E else t) !! "id"
          = t !! "id") as Hsame.
  { destruct (strict_eq (t !! "id") (E !! "id")) eqn:Hid; [|done].
    by apply spread_keeps_id. }
  rewrite Hsame.
  destruct (decide (negb (strict_eq (t !! "id") (Some (JStr i))) = true)).
  - cbn [map]. by rewrite IH.
  - exact IH.
Qed.

(** Filters accumulate: setting filters twice is setting their merge, in
    which the later values win; clearing drops every filter, whatever was
    set before; neither touches the cached todos. *)
Theorem filters_accumulate_until_cleared (a b : gmap string string) (st : TodoState) :
  setFilters b (setFilters a st) = setFilters (b ∪ a) st
  ∧ (∀ key, filters (setFilters b (setFilters a st)) !! key =
            match b !! key with
            | Some v => Some v
            | None => match a !! key with
                      | Some v => Some v
                      | None => filters st !! key
                      end
            end)
  ∧ filters (clearFilters (setFilters a st)) = ∅
  ∧ todos (clearFilters (setFilters a st)) = todos st.
Proof.
  unfold setFilters, clearFilters, set_filters. cbn.
  split; [by rewrite (assoc_L (∪))|]. split; [|done].
  intros key. rewrite !lookup_union.
  by destruct (b !! key), (a !! key), (filters st !! key).
Qed.

End CacheExtras.

(** ** The connection manager: retry budget, disconnecting, reconnecting *)
Section ConnectionExtras.
Import SocketService Fixtures.

Lemma retry_delay_bounds (a : Z) :
  0 ≤ a → 2000 ≤ Z.min (1000 * 2 ^ (a + 1)) 30000 ≤ 30000.
Proof.
  intros Ha. assert (2 ^ 1 ≤ 2 ^ (a + 1)) by (apply Z.pow_le_mono_r; lia).
  change (2 ^ 1) with 2 in *. lia.
Qed.

(** Whatever the state of the service, as long as its counter is not
    negative: every retry delay lies between 2 s and 30 s, the number of
    retries that [n] connection errors in a row schedule is [n] or what is
    left of the budget, whichever is smaller, and the counter never passes
    the budget it had not passed already. *)
Theorem retries_are_bounded (n : nat) (s : t) :
  0 ≤ reconnectAttempts s →
  Forall (λ d, 2000 ≤ d ≤ 30000) (connect_errors n s).2
  ∧ length (connect_errors n s).2
      = (n `min` Z.to_nat (maxReconnectAttempts s - reconnectAttempts s))%nat
  ∧ reconnectAttempts (connect_errors n s).1
      = reconnectAttempts s + Z.of_nat (length (connect_errors n s).2)
  ∧ maxReconnectAttempts (connect_errors n s).1 = maxReconnectAttempts s.
Proof.
  revert s. induction n as [|n IH]; intros s Hpos.
  - cbn [connect_errors fst snd length].
    split_and!; first [by apply Forall_nil | lia].
  - cbn [connect_errors]. unfold on_connect_error, handleReconnect.
    destruct (Z.ltb_spec (reconnectAttempts s) (maxReconnectAttempts s)) as [Hlt|Hge].
    + cbv zeta.
      specialize (IH {| socket := socket s;
                        reconnectAttempts := reconnectAttempts s + 1;
                        maxReconnectAttempts := maxReconnectAttempts s |}).
      cbn [reconnectAttempts maxReconnectAttempts] in IH.
      destruct IH as (Hall & Hlen & Hcount & Hmax); [lia|].
      destruct (connect_errors n _) as [s2 delays]. cbn [fst snd] in *.
      change (omap _ [SetTimeout ?d]) with [d]. cbn [app length].
      repeat split.
      * constructor; [by apply retry_delay_bounds|done].
      * rewrite Hlen. lia.
      * rewrite Hcount. lia.
      * done.
    + rewrite connect_errors_exhausted by done.
      change (omap _ (@nil Effect)) with (@nil Z). cbn [fst snd app length].
      split_and!; first [by apply Forall_nil | lia].
Qed.

Lemma retries_are_bounded_witness :
  0 ≤ reconnectAttempts initial
  ∧ length (connect_errors 9 initial).2 = 5%nat.
Proof.
  split; [by vm_compute|].
  refine (proj1 (proj2 (retries_are_bounded 9 initial _))). by vm_compute.
Defined.

(** The service after the ['connect'] listener has run. *)
Lemma on_connect_service (user : option string) (s : t) :
  (on_connect user s).1 =
    {| socket := (λ sock, {| connected := true; auth_token := auth_token sock |})
                   <$> socket s;
       reconnectAttempts := 0;
       maxReconnectAttempts := maxReconnectAttempts s |}.
Proof.
  unfold on_connect, joinUserRoom, guarded_emit. cbv zeta.
  destruct user; [destruct (socket_connected _)|]; reflexivity.
Qed.

Lemma connect_errors_keeps_budget (n : nat) (s : t) :
  maxReconnectAttempts (connect_errors n s).1 = maxReconnectAttempts s.
Proof.
  revert s. induction n as [|n IH]; intros s; [reflexivity|].
  cbn [connect_errors]. unfold on_connect_error, handleReconnect.
  destruct (reconnectAttempts s <? maxReconnectAttempts s).
  - cbv zeta.
    specialize (IH {| socket := socket s;
                      reconnectAttempts := reconnectAttempts s + 1;
                      maxReconnectAttempts := maxReconnectAttempts s |}).
    by destruct (connect_errors n _) as [s2 delays].
  - specialize (IH s). by destruct (connect_errors n s) as [s2 delays].
Qed.

Lemma fresh_budget_schedule (n : nat) (s : t) :
  reconnectAttempts s = 0 →
  maxReconnectAttempts s = 5 →
  (connect_errors n s).2 = take n [2000; 4000; 8000; 16000; 30000].
Proof.
  destruct s as [sock a m]. cbn. intros -> ->.
  destruct (decide (n < 5)%nat) as [Hlt|Hge].
  - do 5 (destruct n as [|n]; [reflexivity|]). lia.
  - replace n with (5 + (n - 5))%nat by lia. rewrite connect_errors_add.
    rewrite (connect_errors_exhausted (n - 5)) by (vm_compute; discriminate).
    by rewrite firstn_all2 by (cbn; lia).
Qed.

(** A successful connection gives the retry budget back: after it, the
    delays start again at 2 s, however many retries were used before. *)
Theorem connect_resets_retry_budget (used n : nat) (user : option string) :
  (connect_errors n (on_connect user (connect_errors used initial).1).1).2
  = take n [2000; 4000; 8000; 16000; 30000].
Proof.
  apply fresh_budget_schedule.
  - by rewrite on_connect_service.
  - rewrite on_connect_service. cbn [maxReconnectAttempts].
    apply (connect_errors_keeps_budget used initial).
Qed.

(** [disconnect] drops the socket and closes it exactly when there was one;
    afterwards no room or emit operation sends anything and a second
    [disconnect] does nothing; the retry counter is not reset. *)
Theorem disconnect_silences_the_service (op : Op) (s : t) :
  socket (disconnect s).1 = None
  ∧ ((disconnect s).2 = [Close] ↔ is_Some (socket s))
  ∧ ((disconnect s).2 = [] ↔ socket s = None)
  ∧ run op (disconnect s).1 = ((disconnect s).1, [])
  ∧ disconnect (disconnect s).1 = ((disconnect s).1, [])
  ∧ reconnectAttempts (disconnect s).1 = reconnectAttempts s.
Proof.
  unfold disconnect. destruct s as [[sock|] a m]; cbn [socket fst snd].
  - repeat split; try done; try (by eexists).
    destruct op; reflexivity.
  - repeat split; try done; try (by intros []).
    destruct op; reflexivity.
Qed.

(** Once a connection is established, calling [connect] again opens no
    second connection and changes nothing, whatever the token. *)
Theorem connect_when_connected_is_noop
  (user token : option string) (s : t) :
  is_Some (socket s) →
  socket_connected (on_connect user s).1 = true
  ∧ connect token (on_connect user s).1 = ((on_connect user s).1, []).
Proof.
  intros [sock Hsock].
  assert (socket_connected (on_connect user s).1 = true) as Hconn.
  { rewrite on_connect_service. unfold socket_connected. cbn [socket].
    by rewrite Hsock. }
  split; [exact Hconn|]. unfold connect. by rewrite Hconn.
Qed.

Lemma connect_when_connected_is_noop_witness :
  is_Some (socket (connect (Some "jwt") initial).1)
  ∧ connect (Some "jwt") (on_connect (Some "u1") (connect (Some "jwt") initial).1).1
    = ((on_connect (Some "u1") (connect (Some "jwt") initial).1).1, []).
Proof.
  assert (is_Some (socket (connect (Some "jwt") initial).1)) as Hs by (by eexists).
  split; [exact Hs|].
  exact (proj2 (connect_when_connected_is_noop (Some "u1") (Some "jwt")
                  (connect (Some "jwt") initial).1 Hs)).
Defined.

End ConnectionExtras.

(** ** Logging in and out, as the socket and the API client see it *)
Section SessionExtras.
Import AuthStore App Fixtures.

Lemma disconnect_service (svc : SocketService.t) :
  (SocketService.disconnect svc).1 =
    {| SocketService.socket := None;
       SocketService.reconnectAttempts := SocketService.reconnectAttempts svc;
       SocketService.maxReconnectAttempts := SocketService.maxReconnectAttempts svc |}.
Proof. unfold SocketService.disconnect. by destruct svc as [[sock|] a m]. Qed.

(** After [login] with a non-empty token, the socket effect of the
    application closes the socket it had, if any, and opens exactly one
    connection, which carries the new token; API requests carry the header
    [Authorization: Bearer <token>] and keep their other headers. *)
Theorem login_reconnects_with_new_token
  (u : JsObj) (tk : string) (a : AuthState) (svc : SocketService.t)
  (headers : gmap string string) :
  tk ≠ "" →
  SocketService.socket (socket_effect_rerun (login u tk a) svc).1
    = Some {| SocketService.connected := false; SocketService.auth_token := tk |}
  ∧ (socket_effect_rerun (login u tk a) svc).2
    = (match SocketService.socket svc with
       | Some _ => [SocketService.Close]
       | None => []
       end ++ [SocketService.Open tk])%list
  ∧ request_interceptor (login u tk a) headers !! "Authorization"
    = Some ("Bearer " +:+ tk)
  ∧ (∀ name, name ≠ "Authorization" →
             request_interceptor (login u tk a) headers !! name = headers !! name).
Proof.
  intros Hne. apply String.eqb_neq in Hne.
  assert ((socket_effect_rerun (login u tk a) svc)
          = ({| SocketService.socket :=
                  Some {| SocketService.connected := false;
                          SocketService.auth_token := tk |};
                SocketService.reconnectAttempts := SocketService.reconnectAttempts svc;
                SocketService.maxReconnectAttempts :=
                  SocketService.maxReconnectAttempts svc |},
             (match SocketService.socket svc with
              | Some _ => [SocketService.Close]
              | None => []
              end ++ [SocketService.Open tk])%list)) as ->.
  { unfold socket_effect_rerun, socket_cleanup, socket_effect, token_truthy.
    cbn [login isAuthenticated token]. rewrite Hne. cbn [negb andb].
    destruct svc as [[sock|] n m];
      unfold SocketService.disconnect, SocketService.connect,
        SocketService.socket_connected;
      cbn [SocketService.socket SocketService.reconnectAttempts
           SocketService.maxReconnectAttempts];
      by rewrite Hne. }
  cbn [fst snd SocketService.socket].
  unfold request_interceptor. cbn [login token]. rewrite Hne.
  split; [done|]. split; [done|]. split.
  - apply lookup_insert_eq.
  - intros name Hname. by apply lookup_insert_ne.
Qed.

Lemma login_reconnects_with_new_token_witness :
  "jwt-1" ≠ ""
  ∧ (socket_effect_rerun (login {[ "id" := JStr "u1" ]} "jwt-1" initial)
       SocketService.initial).2
    = [SocketService.Open "jwt-1"].
Proof.
  split; [discriminate|].
  refine (proj1 (proj2 (login_reconnects_with_new_token {[ "id" := JStr "u1" ]}
                          "jwt-1" initial SocketService.initial ∅ _))).
  discriminate.
Defined.

(** A 401 answer to any API call logs the user out and sends the browser to
    the login page; from then on requests carry no Authorization header of
    the store, the socket effect closes the socket and opens none, and the
    ['connect'] listener has no user room to join.  Any other failure leaves
    the authentication store as it was and redirects nowhere. *)
Theorem unauthorized_response_logs_out
  (a : AuthState) (svc : SocketService.t) (headers : gmap string string) :
  (response_error_interceptor (Some 401) a).2 = Some "/login"
  ∧ (response_error_interceptor (Some 401) a).1 = logout a
  ∧ request_interceptor (response_error_interceptor (Some 401) a).1 headers = headers
  ∧ SocketService.socket
      (socket_effect_rerun (response_error_interceptor (Some 401) a).1 svc).1 = None
  ∧ Forall (λ e, e = SocketService.Close)
      (socket_effect_rerun (response_error_interceptor (Some 401) a).1 svc).2
  ∧ user_id (response_error_interceptor (Some 401) a).1 = None
  ∧ (∀ status, status ≠ Some 401 →
               response_error_interceptor status a = (a, None)).
Proof.
  split; [done|]. split; [done|]. split; [done|].
  cbn [response_error_interceptor Z.eqb Pos.eqb fst].
  unfold socket_effect_rerun, socket_cleanup, socket_effect.
  cbn [logout isAuthenticated andb].
  split; [|split; [|split]].
  - destruct svc as [[sock|] n m]; reflexivity.
  - destruct svc as [[sock|] n m]; cbn; repeat constructor.
  - reflexivity.
  - intros [code|] Hne; [|reflexivity]. unfold response_error_interceptor.
    destruct (Z.eqb_spec code 401) as [->|]; [done|reflexivity].
Qed.

(** [login] with an empty token marks the user as authenticated, and yet
    no connection is opened and no Authorization header is sent. *)
Theorem empty_token_login_opens_nothing
  (u : JsObj) (a : AuthState) (svc : SocketService.t) (headers : gmap string string) :
  isAuthenticated (login u "" a) = true
  ∧ SocketService.socket (socket_effect_rerun (login u "" a) svc).1 = None
  ∧ Forall (λ e, e = SocketService.Close) (socket_effect_rerun (login u "" a) svc).2
  ∧ request_interceptor (login u "" a) headers = headers.
Proof.
  split; [done|]. split; [|split; [|done]].
  - destruct svc as [[sock|] n m]; reflexivity.
  - destruct svc as [[sock|] n m]; cbn; repeat constructor.
Qed.

(** [updateUser] changes the profile only: without a logged-in user it does
    nothing, and with one it merges the given fields into the user and
    leaves the token and the authentication flag alone. *)
Theorem updateUser_keeps_credentials (userData : JsObj) (a : AuthState) :
  token (updateUser userData a) = token a
  ∧ isAuthenticated (updateUser userData a) = isAuthenticated a
  ∧ (user a = None → updateUser userData a = a)
  ∧ (∀ u key, user a = Some u →
       (user (updateUser userData a) ≫= (.!! key)) =
         match userData !! key with
         | Some v => Some v
         | None => u !! key
         end).
Proof.
  unfold updateUser. destruct a as [[u|] tk auth loading]; cbn.
  - split; [done|]. split; [done|]. split; [done|].
    intros u' key [= <-]. unfold spread. rewrite lookup_union.
    by destruct (userData !! key), (u !! key).
  - split; [done|]. split; [done|]. split; [done|]. by intros u key.
Qed.

End SessionExtras.

(** ** The relay: memberships, messages without a listener, disconnecting *)
Section RelayExtras.
Import Relay Fixtures.

Lemma join_other (sid who room : string) (srv : Server) :
  who ≠ sid → join sid room srv !! who = srv !! who.
Proof.
  intros Hne. unfold join. destruct (srv !! sid); [|done].
  by rewrite lookup_insert_ne.
Qed.

Lemma joined_after_join (sid who room r : string) (srv : Server) :
  joined who r srv → joined who r (join sid room srv).
Proof.
  intros (rooms & Hwho & Hin). unfold joined.
  destruct (decide (who = sid)) as [->|Hne].
  - unfold join. rewrite Hwho. exists (rooms ∪ {[room]}).
    split; [apply lookup_insert_eq|]. by apply elem_of_union_l.
  - exists rooms. split; [|done]. by rewrite join_other.
Qed.

(** The state of the server after a message is the state before, except
    for the two join messages. *)
Lemma on_state (sid : string) (msg : ClientMsg) (srv : Server) :
  (on sid msg srv).1 =
    match msg with
    | join_user_room userId => join sid ("user-" +:+ userId) srv
    | join_team_room teamId => join sid ("team-" +:+ teamId) srv
    | _ => srv
    end.
Proof.
  unfold on, join. destruct (srv !! sid) eqn:Hsid; destruct msg; try done.
Qed.

(** No message ever takes a session out of a room: whoever is joined to a
    room before a message is handled is joined to it afterwards, and the set
    of connected sessions does not change. *)
Theorem memberships_only_grow
  (sid : string) (msg : ClientMsg) (srv : Server) (who room : string) :
  joined who room srv →
  joined who room (on sid msg srv).1
  ∧ dom (on sid msg srv).1 = dom srv.
Proof.
  intros Hjoined. rewrite on_state.
  destruct msg; try done; split;
    first [by apply joined_after_join | apply join_dom].
Qed.

Lemma memberships_only_grow_witness :
  joined "A" "user-1" srv0
  ∧ joined "A" "user-1" (Relay.on "A" (leave_team_room "1") srv0).1.
Proof.
  assert (joined "A" "user-1" srv0) as Hj
    by (apply (bool_decide_unpack _); by vm_compute).
  split; [exact Hj|].
  exact (proj1 (memberships_only_grow "A" (leave_team_room "1") srv0
                  "A" "user-1" Hj)).
Defined.

(** The server has no listener for ['leave-team-room'] and ['comment-added']:
    a client that is connected does send them, and the server neither changes
    its state nor sends anything to anyone, so a session stays in the team
    room it asked to leave and a comment event reaches no other session. *)
Theorem unhandled_messages_are_dropped
  (sid teamId : string) (comment : JsObj) (srv : Server) (s : SocketService.t) :
  SocketService.socket_connected s = true →
  SocketService.leaveTeamRoom teamId s = (s, [SocketService.Emit (leave_team_room teamId)])
  ∧ SocketService.emitCommentAdded comment s
    = (s, [SocketService.Emit (comment_added comment)])
  ∧ on sid (leave_team_room teamId) srv = (srv, [])
  ∧ on sid (comment_added comment) srv = (srv, [])
  ∧ (is_Some (srv !! sid) →
     joined sid ("team-" +:+ teamId)
       (on sid (leave_team_room teamId) (on sid (join_team_room teamId) srv).1).1).
Proof.
  intros Hconn.
  unfold SocketService.leaveTeamRoom, SocketService.emitCommentAdded,
    SocketService.guarded_emit. rewrite Hconn.
  split; [done|]. split; [done|].
  split; [unfold on; by destruct (srv !! sid)|].
  split; [unfold on; by destruct (srv !! sid)|].
  intros Hsid. rewrite !on_state. by apply joined_join.
Qed.

Lemma unhandled_messages_are_dropped_witness :
  SocketService.socket_connected
    (SocketService.on_connect None (SocketService.connect (Some "jwt") SocketService.initial).1).1
  = true
  ∧ Relay.on "A" (comment_added update1) srv0 = (srv0, []).
Proof.
  split; [reflexivity|].
  refine (proj1 (proj2 (proj2 (proj2
    (unhandled_messages_are_dropped "A" "1" update1 srv0
       (SocketService.on_connect None
          (SocketService.connect (Some "jwt") SocketService.initial).1).1 _))))).
  reflexivity.
Defined.

(** Once a session has disconnected it is in no room, no relayed event is
    sent to it, whatever it still sends is ignored, and the other sessions
    keep their rooms. *)
Theorem disconnected_session_is_cut_off
  (sid other : string) (msg : ClientMsg) (srv : Server) :
  (∀ room, ¬ joined sid room (disconnect sid srv))
  ∧ (∀ m, (sid, m) ∉ (on other msg (disconnect sid srv)).2)
  ∧ on sid msg (disconnect sid srv) = (disconnect sid srv, [])
  ∧ (∀ who, who ≠ sid → disconnect sid srv !! who = srv !! who).
Proof.
  unfold disconnect. split; [|split; [|split]].
  - intros room (rooms & Hsid & _). by rewrite lookup_delete_eq in Hsid.
  - intros m Hin.
    assert (∀ push, (sid, m) ∉ broadcast_emit other push (delete sid srv)) as Hnot.
    { intros push Hbad. apply broadcast_emit_spec in Hbad as (_ & Hdom & _).
      apply elem_of_dom in Hdom as [rooms Hsid].
      by rewrite lookup_delete_eq in Hsid. }
    unfold on in Hin. destruct (delete sid srv !! other); [|by apply elem_of_nil in Hin].
    destruct msg; cbn [snd] in Hin;
      first [by apply elem_of_nil in Hin | by apply Hnot in Hin].
  - unfold on. by rewrite lookup_delete_eq.
  - intros who Hne. by apply lookup_delete_ne.
Qed.

(** Joining the own user room, end to end: when a connection is established
    for a logged-in user, the client sends exactly one ['join-user-room']
    with the identifier of that user, and the server, on handling it, puts
    the session in the room ["user-<id>"], sends nothing to anyone and
    leaves every other session as it was. *)
Theorem connect_joins_own_user_room
  (a : AuthStore.AuthState) (uid sid : string) (s : SocketService.t) (srv : Server) :
  App.user_id a = Some uid →
  is_Some (SocketService.socket s) →
  is_Some (srv !! sid) →
  (SocketService.on_connect (App.user_id a) s).2
    = [SocketService.Emit (join_user_room uid)]
  ∧ joined sid ("user-" +:+ uid) (on sid (join_user_room uid) srv).1
  ∧ (on sid (join_user_room uid) srv).2 = []
  ∧ (∀ who, who ≠ sid → (on sid (join_user_room uid) srv).1 !! who = srv !! who).
Proof.
  intros -> [sock Hsock] [rooms Hsid]. split; [|split; [|split]].
  - unfold SocketService.on_connect, SocketService.joinUserRoom,
      SocketService.guarded_emit, SocketService.socket_connected.
    cbv zeta. cbn [SocketService.socket]. by rewrite Hsock.
  - rewrite on_state. apply joined_join. eauto.
  - unfold on. by rewrite Hsid.
  - intros who Hne. rewrite on_state. by apply join_other.
Qed.

Lemma connect_joins_own_user_room_witness :
  App.user_id (AuthStore.login {[ "id" := JStr "1" ]} "jwt" AuthStore.initial) = Some "1"
  ∧ joined "B" "user-1" (Relay.on "B" (join_user_room "1") srv0).1.
Proof.
  split; [reflexivity|].
  refine (proj1 (proj2
    (connect_joins_own_user_room
       (AuthStore.login {[ "id" := JStr "1" ]} "jwt" AuthStore.initial) "1" "B"
       (SocketService.connect (Some "jwt") SocketService.initial).1 srv0
       eq_refl _ _))).
  - by eexists.
  - by vm_compute; eexists.
Defined.

End RelayExtras.

(** ** The mutation routes: what a request can and cannot change *)
Section RouteExtras.
Import Todos Access Fixtures.
Variable schema : Schema.

Ltac unfold_routes :=
  unfold serve, createTodo, updateTodo, deleteTodo, createSubtask, updateSubtask,
    deleteSubtask, addComment, answer, try_catch,
    todo_findFirst, todo_create, todoCategory_deleteMany, todo_update, todo_delete,
    subtask_create, subtask_findFirst, subtask_update, subtask_delete, comment_create,
    mbind, M_bind, mret, M_ret, get_db, commit, throw;
  cbv zeta.

Lemma rows_of_other_after_links (id other : string) (cids : list string)
  (rows : list (string * string)) :
  other ≠ id →
  snd <$> filter (λ r, r.1 = other) (rows ++ link_rows id cids)%list
  = snd <$> filter (λ r, r.1 = other) rows.
Proof.
  intros Hne. rewrite filter_app, filter_link_rows, decide_False by done.
  by rewrite app_nil_r.
Qed.

Ltac differs := intros ?; simplify_eq; naive_solver.
Ltac other_row :=
  first
    [ done
    | rewrite lookup_insert_ne; [done | differs]
    | rewrite lookup_delete_ne; [done | differs]
    | apply map_lookup_filter_Some; split; [done|]; cbn; differs
    | rewrite ?app_nil_r;
      repeat match goal with
        | |- context [(?i, ?c) :: link_rows ?i ?l] =>
            change ((i, c) :: link_rows i l) with (link_rows i (c :: l))
        end;
      rewrite ?rows_of_other_after_links by differs;
      rewrite ?filter_rows_of_other by differs;
      done ].

(** A request that is answered 400 or 404 has written nothing: the store
    and the trace are what they were. *)
Theorem rejected_request_writes_nothing (user : string) (req : Mutation) (w : World) :
  status_code (serve schema user req w).1 = 400
  ∨ status_code (serve schema user req w).1 = 404 →
  (serve schema user req w).2 = w.
Proof.
  destruct req; unfold_routes; repeat (case_match; simplify_eq/=); try done;
    intros [?|?]; discriminate.
Qed.

(** Every request except an update that replaces the categories is all or
    nothing: it either succeeds with exactly one committed write, or fails
    and leaves the store and the trace as they were. *)
Theorem request_is_all_or_nothing (user : string) (req : Mutation) (w : World) :
  replaces_categories req = false →
  match (serve schema user req w).1 with
  | Success _ _ =>
      ∃ operation,
        trace (serve schema user req w).2 = (trace w ++ [Commit operation])%list
  | Failure _ _ _ => (serve schema user req w).2 = w
  end.
Proof.
  destruct req; unfold_routes; repeat (case_match; simplify_eq/=); try done;
    intros _; eauto.
Qed.

(** What hangs off another user's todo survives every request. *)
Lemma foreign_rows_survive
  (user : string) (req : Mutation) (w : World) (id : string) (t : Todo) :
  todo (store w) !! id = Some t →
  userId t ≠ user →
  todo (store (serve schema user req w).2) !! id = Some t
  ∧ categoryIds_of id (store (serve schema user req w).2) = categoryIds_of id (store w)
  ∧ (∀ sid s, subtask (store w) !! sid = Some s → sub_todoId s = id →
       subtask (store (serve schema user req w).2) !! sid = Some s)
  ∧ (∀ cid c, comment (store w) !! cid = Some c → com_todoId c = id →
       comment (store (serve schema user req w).2) !! cid = Some c).
Proof.
  intros Ht Hu. unfold categoryIds_of.
  destruct req; unfold_routes; repeat (case_match; simplify_eq/=); try done.
  all: split_and!; try done; intros; other_row.
Qed.

Ltac was_there :=
  match goal with
  | H : <[?k := ?v]> ?m !! ?j = Some ?x |- _ =>
      apply lookup_insert_Some in H as [[? ?]|[? ?]]; simplify_eq/=;
      first [done | exfalso; naive_solver]
  | H : delete ?k ?m !! ?j = Some ?x |- _ =>
      apply lookup_delete_Some in H as [? ?]; done
  | H : filter ?P ?m !! ?j = Some ?x |- _ =>
      apply map_lookup_filter_Some in H as [? ?]; done
  end.

(** No request hangs a new subtask or comment on another user's todo. *)
Lemma foreign_rows_not_added
  (user : string) (req : Mutation) (w : World) (id : string) (t : Todo) :
  todo (store w) !! id = Some t →
  userId t ≠ user →
  (∀ sid s, subtask (store (serve schema user req w).2) !! sid = Some s →
            sub_todoId s = id → subtask (store w) !! sid = Some s)
  ∧ (∀ cid c, comment (store (serve schema user req w).2) !! cid = Some c →
              com_todoId c = id → comment (store w) !! cid = Some c).
Proof.
  intros Ht Hu.
  destruct req; unfold_routes; repeat (case_match; simplify_eq/=); try done.
  all: split; intros ? ? Hrow Hparent; try done; try was_there.
Qed.

(** No request of a user changes what belongs to another user's todo: the
    todo itself and its category associations are after the request what
    they were before, and so are its subtasks and its comments, of which none
    is changed, removed or added, whatever the request and whether it
    succeeds or fails. *)
Theorem foreign_todo_is_untouched
  (user : string) (req : Mutation) (w : World) (id : string) (t : Todo) :
  todo (store w) !! id = Some t →
  userId t ≠ user →
  todo (store (serve schema user req w).2) !! id = Some t
  ∧ categoryIds_of id (store (serve schema user req w).2) = categoryIds_of id (store w)
  ∧ (∀ sid s, sub_todoId s = id →
       (subtask (store (serve schema user req w).2) !! sid = Some s
        ↔ subtask (store w) !! sid = Some s))
  ∧ (∀ cid c, com_todoId c = id →
       (comment (store (serve schema user req w).2) !! cid = Some c
        ↔ comment (store w) !! cid = Some c)).
Proof.
  intros Ht Hu.
  destruct (foreign_rows_survive user req w id t Ht Hu) as (Htodo & Hrows & Hsub & Hcom).
  destruct (foreign_rows_not_added user req w id t Ht Hu) as (Hsub' & Hcom').
  split; [done|]. split; [done|]. split.
  - intros sid s Hparent. split; intros Hrow; eauto.
  - intros cid c Hparent. split; intros Hrow; eauto.
Qed.

Lemma hidden_answer_status (req : Mutation) :
  status_code (hidden_answer schema req) = 400
  ∨ status_code (hidden_answer schema req) = 404.
Proof.
  unfold hidden_answer. cbv zeta.
  destruct req; try (by right); case_bool_decide; cbn; auto.
Qed.

Lemma hidden_row_answer user req w :
  hidden user req (store w) → serve schema user req w = (hidden_answer schema req, w).
Proof.
  unfold hidden, hidden_answer.
  destruct req; intros Hh; try done; unfold_routes;
    repeat (case_match; simplify_eq/=); try done; exfalso; naive_solver.
Qed.

(** A request for a todo (or a subtask) that does not exist and the same
    request for one that belongs to another user are answered alike: the
    answer, 400 or 404, is the same in both stores, and nothing is written,
    so the answer does not tell whether the row exists. *)
Theorem hidden_row_is_indistinguishable
  (user : string) (req : Mutation) (w1 w2 : World) :
  hidden user req (store w1) →
  hidden user req (store w2) →
  (serve schema user req w1).1 = (serve schema user req w2).1
  ∧ (serve schema user req w1).2 = w1
  ∧ (status_code (serve schema user req w1).1 = 400
     ∨ status_code (serve schema user req w1).1 = 404).
Proof.
  intros H1 H2. rewrite !hidden_row_answer by done. cbn [fst snd].
  split; [done|]. split; [done|]. apply hidden_answer_status.
Qed.

(** An update without [categoryIds], of a todo the user owns, that passes
    validation and that the storage layer accepts, succeeds with one write
    and changes the given fields only: a field that the body does not carry
    keeps its value, the identifier and the owner never change, and the
    category associations, subtasks and comments are left alone. *)
Theorem update_changes_only_given_fields (user id : string) (body : TodoBody) (w : World) (t : Todo) :
  update_errors schema body = [] →
  b_categoryIds body = None →
  todo (store w) !! id = Some t →
  userId t = user →
  link_ok schema (store w) id [] = true →
  ∃ tv w',
    updateTodo schema user id body w = (Success 200 (PTodo tv), w')
    ∧ todo (store w') = <[id := row tv]> (todo (store w))
    ∧ todo_id (row tv) = todo_id t
    ∧ userId (row tv) = userId t
    ∧ title (row tv) = default (title t) (b_title body)
    ∧ description (row tv) = match b_description body with
                             | Some d => Some d
                             | None => description t
                             end
    ∧ priority (row tv) = default (priority t) (b_priority body)
    ∧ status (row tv) = default (status t) (b_status body)
    ∧ dueDate (row tv) = match b_dueDate body with
                         | Some d => if String.eqb d "" then None else Some d
                         | None => dueDate t
                         end
    ∧ todoCategory (store w') = todoCategory (store w)
    ∧ category (store w') = category (store w)
    ∧ subtask (store w') = subtask (store w)
    ∧ comment (store w') = comment (store w)
    ∧ trace w' = (trace w ++ [Commit "todo.update"])%list.
Proof.
  intros Hok Hnone Hfound Hown Hlink.
  unfold updateTodo, answer, try_catch. cbv zeta.
  rewrite bool_decide_eq_true_2 by done. cbn [negb].
  unfold todo_findFirst, todo_update, mbind, M_bind, mret, M_ret, get_db, commit.
  rewrite Hfound, decide_True by done. rewrite Hnone.
  cbn [u_categories update_fields default]. rewrite Hfound, Hlink. cbn [negb].
  eexists _, _. split; [reflexivity|].
  cbn. rewrite app_nil_r. split_and!; try done.
  destruct (b_dueDate body) as [d|]; [|done]. cbn.
  by destruct (String.eqb d "").
Qed.

Lemma fails_elem (field name : string) (ok : bool) :
  field ∈ fails name ok ↔ field = name ∧ ok = false.
Proof.
  unfold fails. destruct ok.
  - rewrite elem_of_nil. naive_solver.
  - rewrite list_elem_of_singleton. naive_solver.
Qed.

Lemma notEmpty_false (v : option string) :
  notEmpty v = false ↔ v = None ∨ v = Some "".
Proof.
  unfold notEmpty. destruct v as [s|]; [|naive_solver].
  rewrite negb_false_iff, String.eqb_eq. naive_solver.
Qed.

Lemma isIn_false (allowed : list string) (v : option string) :
  optional (isIn allowed) v = false ↔ ∃ p, v = Some p ∧ p ∉ allowed.
Proof.
  unfold optional, isIn. destruct v as [p|]; [|naive_solver].
  rewrite bool_decide_eq_false. naive_solver.
Qed.

Lemma iso8601_false (v : option string) :
  optional (iso8601 schema) v = false ↔ ∃ d, v = Some d ∧ isISO8601 schema d = false.
Proof. unfold optional, iso8601. destruct v as [d|]; naive_solver. Qed.

Lemma create_errors_NoDup (body : TodoBody) : NoDup (create_errors schema body).
Proof.
  unfold create_errors, fails.
  destruct (notEmpty _), (optional (isIn _) _), (optional (iso8601 _) _); cbn;
    repeat constructor; set_solver.
Qed.

Lemma create_errors_fields (body : TodoBody) (field : string) :
  field ∈ create_errors schema body ↔
    (field = "title" ∧ (b_title body = None ∨ b_title body = Some ""))
    ∨ (field = "priority" ∧ ∃ p, b_priority body = Some p ∧ p ∉ priorities)
    ∨ (field = "dueDate" ∧ ∃ d, b_dueDate body = Some d ∧ isISO8601 schema d = false).
Proof.
  unfold create_errors.
  rewrite !elem_of_app, !fails_elem, notEmpty_false, isIn_false, iso8601_false.
  tauto.
Qed.

(** For a body whose title, priority and due date are strings when present:
    [POST /] answers 400 exactly when a validator fails, writes nothing
    then, and lists exactly the failing fields, each once: the title when it
    is missing or empty, the priority when one is given that is not LOW,
    MEDIUM, HIGH or URGENT (the empty string included), the due date when
    one is given that is not an ISO 8601 date, and [categoryIds] when it is
    given and is not an array.  When no validator fails the handler runs. *)
Theorem create_validation_reports_failing_fields
  (user : string) (body : Incoming.PostBody) (w : World) :
  (status_code (Incoming.postTodo schema user body w).1 = 400
   ↔ Incoming.post_errors schema body ≠ [])
  ∧ (Incoming.post_errors schema body ≠ [] →
     Incoming.postTodo schema user body w
     = (Failure 400 "Validation failed" (Incoming.post_errors schema body), w))
  ∧ (Incoming.post_errors schema body = [] →
     Incoming.postTodo schema user body w
     = createTodo schema user (Incoming.typed body) w)
  ∧ (∀ field, field ∈ Incoming.post_errors schema body ↔
       (field = "title"
        ∧ (Incoming.p_title body = None ∨ Incoming.p_title body = Some ""))
       ∨ (field = "priority"
          ∧ ∃ p, Incoming.p_priority body = Some p ∧ p ∉ priorities)
       ∨ (field = "dueDate"
          ∧ ∃ d, Incoming.p_dueDate body = Some d ∧ isISO8601 schema d = false)
       ∨ (field = "categoryIds"
          ∧ Incoming.p_categoryIds body = Some Incoming.NotArray))
  ∧ NoDup (Incoming.post_errors schema body).
Proof.
  assert (Incoming.isArray (Incoming.p_categoryIds body) = false
          ↔ Incoming.p_categoryIds body = Some Incoming.NotArray) as Harr.
  { unfold Incoming.isArray.
    destruct (Incoming.p_categoryIds body) as [[ids|]|]; naive_solver. }
  split; [|split; [|split; [|split]]].
  - unfold Incoming.postTodo. case_bool_decide as Herr.
    + pose proof Herr as Hnil. apply app_eq_nil in Hnil as [Htyped _].
      rewrite createTodo_valid by done.
      destruct (todo_create schema _ w) as [[tv|] w1]; cbn; split; try done.
      all: intros Hbad; by destruct (Hbad Herr).
    + cbn. by split.
  - intros Herr. unfold Incoming.postTodo. by rewrite bool_decide_eq_false_2.
  - intros Herr. unfold Incoming.postTodo. by rewrite bool_decide_eq_true_2.
  - intros field. unfold Incoming.post_errors.
    rewrite elem_of_app, create_errors_fields, fails_elem, Harr. cbn. tauto.
  - unfold Incoming.post_errors. apply NoDup_app. split; [apply create_errors_NoDup|].
    split; [|unfold fails; destruct (Incoming.isArray _); repeat constructor; set_solver].
    intros field Hin Hin'. apply fails_elem in Hin' as [-> _].
    apply create_errors_fields in Hin.
    destruct Hin as [[? _]|[[? _]|[? _]]]; discriminate.
Qed.

(** The update of a subtask of an owned todo, once validation has passed. *)
Lemma updateSubtask_owned (user sid : string) (ttl : option string)
  (completed : option bool) (w : World) (s : Subtask) (t : Todo) :
  optional notEmpty ttl = true →
  subtask (store w) !! sid = Some s →
  todo (store w) !! sub_todoId s = Some t →
  userId t = user →
  ∃ s' w',
    updateSubtask user sid ttl completed w = (Success 200 (PSubtask s'), w')
    ∧ subtask (store w') = <[sid := s']> (subtask (store w))
    ∧ sub_id s' = sub_id s
    ∧ sub_todoId s' = sub_todoId s
    ∧ sub_title s' = default (sub_title s) ttl
    ∧ sub_completed s' = default (sub_completed s) completed
    ∧ todo (store w') = todo (store w).
Proof.
  intros Hok Hs Ht Hown.
  unfold updateSubtask, answer, try_catch, fails. cbv zeta. rewrite Hok.
  rewrite bool_decide_eq_true_2 by done. cbn [negb].
  unfold subtask_findFirst, subtask_update, mbind, M_bind, mret, M_ret, get_db, commit.
  rewrite Hs, Ht, decide_True by done. rewrite Hs.
  eexists _, _. split; [reflexivity|]. by cbn.
Qed.

(** [PUT /subtasks/:subtaskId] on a subtask of a todo that the requester
    owns, for a body whose title is a string when present and whose
    [completed] is a boolean or a value that [isBoolean()] refuses.  The
    validation lists the title when it is given and empty and [completed]
    when it is not a boolean.  If it lists anything the route answers 400
    with that list and writes nothing.  Otherwise it answers 200 and changes
    the given fields only: the title and the completion flag take the given
    value or keep their own, the subtask stays with its todo under its
    identifier, and no todo changes. *)
Theorem subtask_update_is_partial (user sid : string)
  (body : Incoming.SubtaskBody) (w : World) (s : Subtask) (t : Todo) :
  subtask (store w) !! sid = Some s →
  todo (store w) !! sub_todoId s = Some t →
  userId t = user →
  (∀ field, field ∈ Incoming.subtask_errors body ↔
     (field = "title" ∧ Incoming.s_title body = Some "")
     ∨ (field = "completed"
        ∧ Incoming.s_completed body = Some Incoming.NotBoolean))
  ∧ (Incoming.subtask_errors body ≠ [] →
     Incoming.putSubtask user sid body w
     = (Failure 400 "Validation failed" (Incoming.subtask_errors body), w))
  ∧ (Incoming.subtask_errors body = [] →
     ∃ s' w',
       Incoming.putSubtask user sid body w = (Success 200 (PSubtask s'), w')
       ∧ subtask (store w') = <[sid := s']> (subtask (store w))
       ∧ sub_id s' = sub_id s
       ∧ sub_todoId s' = sub_todoId s
       ∧ sub_title s' = default (sub_title s) (Incoming.s_title body)
       ∧ (∀ b, Incoming.s_completed body = Some (Incoming.Flag b) →
          sub_completed s' = b)
       ∧ (Incoming.s_completed body = None → sub_completed s' = sub_completed s)
       ∧ todo (store w') = todo (store w)).
Proof.
  intros Hs Ht Hown. split; [|split].
  - intros field. unfold Incoming.subtask_errors.
    rewrite elem_of_app, !fails_elem.
    assert (optional notEmpty (Incoming.s_title body) = false
            ↔ Incoming.s_title body = Some "") as ->.
    { unfold optional. destruct (Incoming.s_title body) as [x|] eqn:Hx; [|naive_solver].
      rewrite notEmpty_false. naive_solver. }
    assert (Incoming.isBoolean (Incoming.s_completed body) = false
            ↔ Incoming.s_completed body = Some Incoming.NotBoolean) as ->.
    { unfold Incoming.isBoolean.
      destruct (Incoming.s_completed body) as [[b|]|]; naive_solver. }
    done.
  - intros Herr. unfold Incoming.putSubtask. by rewrite bool_decide_eq_false_2.
  - intros Herr. unfold Incoming.putSubtask. rewrite bool_decide_eq_true_2 by done.
    apply app_eq_nil in Herr as [Httl Hflag].
    assert (optional notEmpty (Incoming.s_title body) = true) as Hok.
    { unfold fails in Httl. by destruct (optional notEmpty _). }
    destruct (updateSubtask_owned user sid (Incoming.s_title body)
                (Incoming.flag body) w s t Hok Hs Ht Hown)
      as (s' & w' & Hrun & Hsub & Hid & Hpar & Htitle & Hdone & Htodo).
    exists s', w'. split_and!; try done.
    + intros b Hb. rewrite Hdone. unfold Incoming.flag. by rewrite Hb.
    + intros Hb. rewrite Hdone. unfold Incoming.flag. by rewrite Hb.
Qed.

(** [PUT /:id] with a [categoryIds] that is not an array answers 400, lists
    [categoryIds] among the failing fields and writes nothing, so the
    categories of the todo stay as they are; any failing validator has that
    effect, and when none fails the handler runs on the body. *)
Theorem update_refuses_non_array_categoryIds
  (user id : string) (body : Incoming.PutBody) (w : World) :
  (Incoming.r_categoryIds body = Some Incoming.NotArray ↔
   "categoryIds" ∈ Incoming.put_errors schema body)
  ∧ (Incoming.put_errors schema body ≠ [] →
     Incoming.putTodo schema user id body w
     = (Failure 400 "Validation failed" (Incoming.put_errors schema body), w))
  ∧ (Incoming.put_errors schema body = [] →
     Incoming.putTodo schema user id body w
     = updateTodo schema user id (Incoming.typed_put body) w)
  ∧ (∀ field, field ∈ Incoming.put_errors schema body ↔
       (field = "title" ∧ Incoming.r_title body = Some "")
       ∨ (field = "priority"
          ∧ ∃ p, Incoming.r_priority body = Some p ∧ p ∉ priorities)
       ∨ (field = "status"
          ∧ ∃ p, Incoming.r_status body = Some p ∧ p ∉ statuses)
       ∨ (field = "dueDate"
          ∧ ∃ d, Incoming.r_dueDate body = Some d ∧ isISO8601 schema d = false)
       ∨ (field = "categoryIds"
          ∧ Incoming.r_categoryIds body = Some Incoming.NotArray)).
Proof.
  assert (Incoming.isArray (Incoming.r_categoryIds body) = false
          ↔ Incoming.r_categoryIds body = Some Incoming.NotArray) as Harr.
  { unfold Incoming.isArray.
    destruct (Incoming.r_categoryIds body) as [[ids|]|]; naive_solver. }
  assert (∀ field, field ∈ Incoming.put_errors schema body ↔
       (field = "title" ∧ Incoming.r_title body = Some "")
       ∨ (field = "priority"
          ∧ ∃ p, Incoming.r_priority body = Some p ∧ p ∉ priorities)
       ∨ (field = "status"
          ∧ ∃ p, Incoming.r_status body = Some p ∧ p ∉ statuses)
       ∨ (field = "dueDate"
          ∧ ∃ d, Incoming.r_dueDate body = Some d ∧ isISO8601 schema d = false)
       ∨ (field = "categoryIds"
          ∧ Incoming.r_categoryIds body = Some Incoming.NotArray)) as Hfields.
  { intros field. unfold Incoming.put_errors, update_errors.
    rewrite !elem_of_app, !fails_elem, !isIn_false, iso8601_false, Harr. cbn.
    assert (optional notEmpty (Incoming.r_title body) = false
            ↔ Incoming.r_title body = Some "") as ->.
    { unfold optional. destruct (Incoming.r_title body) as [x|] eqn:Hx; [|naive_solver].
      rewrite notEmpty_false. naive_solver. }
    tauto. }
  split; [|split; [|split]].
  - rewrite Hfields. split; [naive_solver|].
    intros [[? _]|[[? _]|[[? _]|[[? _]|[_ ?]]]]]; by try discriminate.
  - intros Herr. unfold Incoming.putTodo. by rewrite bool_decide_eq_false_2.
  - intros Herr. unfold Incoming.putTodo. by rewrite bool_decide_eq_true_2.
  - exact Hfields.
Qed.

(** A subtask or a comment that the routes create hangs off a todo that
    the requester owns and gets a new identifier; the subtask has the given
    non-empty title and the default completion flag, the comment has the
    given non-empty content and is attributed to the requester. *)
Theorem children_hang_off_owned_todo user id ttl content w :
  (∀ code s w', createSubtask schema user id ttl w = (Success code (PSubtask s), w') →
     code = 201 ∧ (∃ t, todo (store w) !! id = Some t ∧ userId t = user)
     ∧ sub_todoId s = id ∧ ttl = Some (sub_title s) ∧ sub_title s ≠ ""
     ∧ sub_completed s = default_completed schema
     ∧ subtask (store w) !! sub_id s = None
     ∧ subtask (store w') = <[sub_id s := s]> (subtask (store w)))
  ∧ (∀ code c w', addComment schema user id content w = (Success code (PComment c), w') →
     code = 201 ∧ (∃ t, todo (store w) !! id = Some t ∧ userId t = user)
     ∧ com_todoId c = id ∧ com_userId c = user ∧ content = Some (com_content c)
     ∧ com_content c ≠ ""
     ∧ comment (store w) !! com_id c = None
     ∧ comment (store w') = <[com_id c := c]> (comment (store w))).
Proof.
  split; intros code x w'; unfold_routes; unfold fails, notEmpty;
    repeat (case_match; simplify_eq/=); try done; intros ?; simplify_eq/=.
  all: split_and!; eauto.
  all: first [ by apply eq_None_not_Some | by apply String.eqb_neq, negb_true_iff ].
Qed.

End RouteExtras.

(** ** Paging of the todo list *)
Section ListingExtras.
Import Listing.

Lemma take_add_drop {A} (a b : nat) (l : list A) :
  take (a + b) l = (take a l ++ take b (drop a l))%list.
Proof.
  revert l. induction a as [|a IH]; intros l; [reflexivity|].
  destruct l as [|x l]; cbn; [by rewrite take_nil|]. by rewrite IH.
Qed.

Lemma limit_never_zero (parsedPage parsedLimit : option Z) :
  limit (paging parsedPage parsedLimit) ≠ 0.
Proof.
  unfold paging, or_fallback. cbn.
  destruct parsedLimit as [n|]; [|done].
  by destruct (Z.eqb_spec n 0).
Qed.

Lemma page_count_bounds (L total : Z) :
  0 < L → 0 ≤ total →
  0 ≤ pages total L ∧ total ≤ pages total L * L ∧ (pages total L - 1) * L < total + Z.b2z (total =? 0).
Proof.
  intros Hpos Htotal. unfold pages.
  pose proof (Z.div_mod (- total) L ltac:(lia)) as Hdiv.
  pose proof (Z.mod_pos_bound (- total) L Hpos) as Hmod.
  destruct (Z.eqb_spec total 0) as [->|Hne]; cbn [Z.b2z].
  - rewrite Z.div_0_l by lia. lia.
  - split_and!; nia.
Qed.

(** A page that is missing, not a number or zero is page 1 and any other
    page is itself; a limit that is missing, not a number or zero is 10 and
    any other limit is itself, each whatever the other one is; the rows
    skipped are [(page - 1) * limit]; so the limit is never zero.  When the
    limit is positive, the page count that the route reports is the least
    number of pages that hold all rows: they hold at least [total] rows, and
    one page fewer would not. *)
Theorem page_count_is_least_cover (parsedPage parsedLimit : option Z) (total : Z) :
  (parsedPage = None ∨ parsedPage = Some 0 → page (paging parsedPage parsedLimit) = 1)
  ∧ (∀ n, parsedPage = Some n → n ≠ 0 → page (paging parsedPage parsedLimit) = n)
  ∧ (parsedLimit = None ∨ parsedLimit = Some 0 →
     limit (paging parsedPage parsedLimit) = 10)
  ∧ (∀ n, parsedLimit = Some n → n ≠ 0 → limit (paging parsedPage parsedLimit) = n)
  ∧ skip (paging parsedPage parsedLimit)
    = (page (paging parsedPage parsedLimit) - 1) * limit (paging parsedPage parsedLimit)
  ∧ limit (paging parsedPage parsedLimit) ≠ 0
  ∧ (0 < limit (paging parsedPage parsedLimit) → 0 ≤ total →
     let n := pages total (limit (paging parsedPage parsedLimit)) in
     0 ≤ n
     ∧ total ≤ n * limit (paging parsedPage parsedLimit)
     ∧ (0 < total → (n - 1) * limit (paging parsedPage parsedLimit) < total)
     ∧ (total = 0 → n = 0)).
Proof.
  split; [by intros [->| ->]|].
  split. { intros n -> Hn. cbn. by destruct (Z.eqb_spec n 0). }
  split; [by intros [->| ->]|].
  split. { intros n -> Hn. cbn. by destruct (Z.eqb_spec n 0). }
  split; [done|]. split; [apply limit_never_zero|].
  intros Hpos Htotal. cbv zeta.
  destruct (page_count_bounds _ total Hpos Htotal) as (H0 & Hcover & Hleast).
  split_and!; try done.
  - intros Hsome. destruct (Z.eqb_spec total 0); cbn [Z.b2z] in Hleast; lia.
  - intros ->. unfold pages. by rewrite Z.div_0_l by lia.
Qed.

Lemma page_count_is_least_cover_witness :
  0 < limit (paging (Some 3) (Some 10))
  ∧ pages 25 (limit (paging (Some 3) (Some 10))) = 3.
Proof.
  split; [reflexivity|].
  pose proof (page_count_is_least_cover (Some 3) (Some 10) 25)
    as (_ & _ & _ & _ & _ & _ & H).
  specialize (H eq_refl ltac:(discriminate)). cbv zeta in H. cbn in H. cbn. lia.
Defined.

Lemma windows_concat {A} (L m : nat) (rows : list A) :
  concat ((λ k, take L (drop ((k - 1) * L) rows)) <$> seq 1 m) = take (m * L) rows.
Proof.
  induction m as [|m IH]; [reflexivity|].
  rewrite seq_S, fmap_app, concat_app, IH. cbn [fmap list_fmap concat].
  rewrite app_nil_r. replace (1 + m - 1)%nat with m by lia.
  replace (S m * L)%nat with (m * L + L)%nat by lia.
  by rewrite take_add_drop.
Qed.

(** With a positive limit, the pages 1 up to the reported page count split
    the rows without loss or repetition: read one after the other they give
    back all rows in order; every page after the last is empty. *)
Theorem pages_partition_the_rows
  {A} (parsedLimit : option Z) (rows : list A) :
  0 < limit (paging None parsedLimit) →
  let n := pages (Z.of_nat (length rows)) (limit (paging None parsedLimit)) in
  concat ((λ k, window (paging (Some (Z.of_nat k)) parsedLimit) rows)
            <$> seq 1 (Z.to_nat n)) = rows
  ∧ (∀ k, n < k → window (paging (Some k) parsedLimit) rows = []).
Proof.
  intros Hpos. cbv zeta.
  set (L := limit (paging None parsedLimit)) in *.
  assert (∀ p, limit (paging p parsedLimit) = L) as HL by done.
  destruct (page_count_bounds L (Z.of_nat (length rows)) Hpos ltac:(lia))
    as (Hn0 & Hcover & _).
  set (n := pages (Z.of_nat (length rows)) L) in *.
  assert (∀ k, 0 < k → window (paging (Some k) parsedLimit) rows
                       = take (Z.to_nat L) (drop (Z.to_nat ((k - 1) * L)) rows)) as Hwin.
  { intros k Hk. unfold window. rewrite HL. unfold paging, or_fallback.
    destruct (Z.eqb_spec k 0); [lia|]. reflexivity. }
  split.
  - transitivity (take (Z.to_nat n * Z.to_nat L) rows); [|apply take_ge; nia].
    rewrite <- windows_concat. f_equal. apply list_fmap_ext.
    intros i k Hk. apply lookup_seq in Hk as [-> _].
    rewrite Hwin by lia. do 2 f_equal. nia.
  - intros k Hk. rewrite Hwin by lia.
    rewrite drop_ge; [by rewrite take_nil|]. nia.
Qed.

Lemma pages_partition_the_rows_witness :
  0 < limit (paging None (Some 2))
  ∧ concat ((λ k, window (paging (Some (Z.of_nat k)) (Some 2)) ["a"; "b"; "c"; "d"; "e"])
              <$> seq 1 3) = ["a"; "b"; "c"; "d"; "e"].
Proof.
  split; [reflexivity|].
  exact (proj1 (pages_partition_the_rows (Some 2) ["a"; "b"; "c"; "d"; "e"] eq_refl)).
Defined.

End ListingExtras.

(** ** The routes on further concrete requests *)
Section RouteExtraExamples.
Import Todos Access Fixtures MoreFixtures.

Lemma rejected_request_writes_nothing_witness :
  (status_code (serve relational "alice" (CreateTodo no_title) w0).1 = 400
   ∨ status_code (serve relational "alice" (CreateTodo no_title) w0).1 = 404)
  ∧ (serve relational "alice" (CreateTodo no_title) w0).2 = w0.
Proof.
  assert (status_code (serve relational "alice" (CreateTodo no_title) w0).1 = 400
          ∨ status_code (serve relational "alice" (CreateTodo no_title) w0).1 = 404)
    as Hcode by (left; reflexivity).
  split; [exact Hcode|].
  exact (rejected_request_writes_nothing relational "alice" (CreateTodo no_title) w0 Hcode).
Defined.

Lemma request_is_all_or_nothing_witness :
  replaces_categories (CreateTodo buy_milk) = false
  ∧ ∃ operation,
      trace (serve relational "alice" (CreateTodo buy_milk) w0).2
      = (trace w0 ++ [Commit operation])%list.
Proof.
  split; [reflexivity|].
  exact (request_is_all_or_nothing relational "alice" (CreateTodo buy_milk) w0 eq_refl).
Defined.

Lemma foreign_todo_is_untouched_witness :
  "alice" ≠ "bob"
  ∧ userId <$> todo (store (serve relational "bob" (DeleteTodo "t1") w0).2) !! "t1"
    = Some "alice".
Proof.
  split; [discriminate|].
  rewrite (proj1 (foreign_todo_is_untouched relational "bob" (DeleteTodo "t1") w0 "t1"
                    {| todo_id := "t1"; title := "Write report"; description := None;
                       priority := "HIGH"; status := "TODO"; dueDate := None;
                       userId := "alice" |} ltac:(by vm_compute) ltac:(discriminate))).
  reflexivity.
Defined.

Lemma hidden_row_is_indistinguishable_witness :
  hidden "bob" (DeleteTodo "t1") (store w0)
  ∧ hidden "bob" (DeleteTodo "t1") (store empty_world)
  ∧ (serve relational "bob" (DeleteTodo "t1") w0).1
    = (serve relational "bob" (DeleteTodo "t1") empty_world).1.
Proof.
  assert (hidden "bob" (DeleteTodo "t1") (store w0)) as H1.
  { intros t Ht. vm_compute in Ht. injection Ht as <-. discriminate. }
  assert (hidden "bob" (DeleteTodo "t1") (store empty_world)) as H2.
  { intros t Ht. vm_compute in Ht. discriminate. }
  split; [exact H1|]. split; [exact H2|].
  exact (proj1 (hidden_row_is_indistinguishable relational "bob" (DeleteTodo "t1")
                  w0 empty_world H1 H2)).
Defined.

Lemma update_changes_only_given_fields_witness :
  update_errors relational complete_it = []
  ∧ ∃ tv w',
      updateTodo relational "alice" "t1" complete_it w0 = (Success 200 (PTodo tv), w')
      ∧ status (row tv) = "COMPLETED"
      ∧ title (row tv) = "Write report"
      ∧ categoryIds_of "t1" (store w') = ["cat-1"].
Proof.
  split; [reflexivity|].
  destruct (update_changes_only_given_fields relational "alice" "t1" complete_it w0
              {| todo_id := "t1"; title := "Write report"; description := None;
                 priority := "HIGH"; status := "TODO"; dueDate := None;
                 userId := "alice" |}
              eq_refl eq_refl ltac:(by vm_compute) eq_refl ltac:(by vm_compute))
    as (tv & w' & Hrun & _ & _ & _ & Htitle & _ & _ & Hstatus & _ & Hrows & _).
  exists tv, w'. split; [exact Hrun|]. split; [exact Hstatus|].
  split; [exact Htitle|]. unfold categoryIds_of. rewrite Hrows. reflexivity.
Defined.

Lemma subtask_update_is_partial_witness :
  (sub_todoId <$> subtask (store w_with_subtask) !! "row-1") = Some "t1"
  ∧ ∃ s' w',
      Incoming.putSubtask "alice" "row-1"
        {| Incoming.s_title := None;
           Incoming.s_completed := Some (Incoming.Flag true) |} w_with_subtask
      = (Success 200 (PSubtask s'), w')
      ∧ sub_title s' = "Draft"
      ∧ sub_completed s' = true.
Proof.
  split; [by vm_compute|].
  destruct (subtask_update_is_partial "alice" "row-1"
              {| Incoming.s_title := None;
                 Incoming.s_completed := Some (Incoming.Flag true) |}
              w_with_subtask
              {| sub_id := "row-1"; sub_title := "Draft"; sub_completed := false;
                 sub_todoId := "t1" |}
              {| todo_id := "t1"; title := "Write report"; description := None;
                 priority := "HIGH"; status := "TODO"; dueDate := None;
                 userId := "alice" |}
              ltac:(by vm_compute) ltac:(by vm_compute) eq_refl)
    as (_ & _ & Hrun).
  destruct (Hrun eq_refl) as (s' & w' & Hput & _ & _ & _ & Htitle & Hdone & _ & _).
  exists s', w'. split; [exact Hput|]. split; [exact Htitle|exact (Hdone true eq_refl)].
Defined.

End RouteExtraExamples.
